(** * Planetarium API: seat validation, reservations, availability and
      cache invalidation

    A shallow embedding of the booking backend.  The relational store is
    a record of tables, the Redis page cache is a finite map from cache
    keys to expiring entries, and every request handler is a function in
    a small state-and-exception monad over the pair of both.

    - [signals.py]  : [CACHE_PATTERNS], [invalidate_cache]
    - [views.py]    : [ShowSessionViewSet.queryset], the [cache_page]
                      wrapper around [ShowSessionViewSet.dispatch]
    - [models.py], [serializers.py] are not part of the sources at hand;
      what the development needs of them is modelled from the
      specification and marked as such. *)

From stdpp Require Import base tactics option list gmap strings fin_maps pretty.
From Stdlib Require Import ZArith Lia Ascii.

Open Scope Z_scope.

(** ** Data model *)

(** Modelled from the spec: [models.PlanetariumDome], a named venue with a
    fixed [rows] x [seats_in_row] seating grid. *)
Record PlanetariumDome := mkDome {
  name : string;
  rows : Z;
  seats_in_row : Z
}.

(** Modelled from the spec: the derived attribute
    [capacity = rows * seats_in_row] of [models.PlanetariumDome]. *)
Definition capacity (dome : PlanetariumDome) : Z :=
  rows dome * seats_in_row dome.

(** Modelled from the spec: [models.ShowSession]; [astronomy_show] and
    [planetarium_dome] are foreign keys. *)
Record ShowSession := mkSession {
  astronomy_show : Z;
  planetarium_dome : Z;
  show_time : Z
}.

(** Modelled from the spec: [models.Reservation]. *)
Record Reservation := mkReservation {
  user : Z;
  created_at : Z
}.

(** Modelled from the spec: [models.Ticket]; [show_session] and
    [reservation] are foreign keys. *)
Record Ticket := mkTicket {
  row : Z;
  seat : Z;
  show_session : Z;
  reservation : Z
}.

(** The relational store: one finite map per table keyed by primary key;
    tickets are kept in insertion order. *)
Record Database := mkDatabase {
  planetarium_domes : gmap Z PlanetariumDome;
  show_sessions : gmap Z ShowSession;
  reservations : gmap Z Reservation;
  reservation_seq : Z;
  tickets : list Ticket
}.

(** ** Exceptions and results *)

Inductive Field := FieldRow | FieldSeat.

(** Modelled from the spec: the error of the seat validator, naming the
    offending field and the valid range. *)
Inductive OutOfBounds :=
| OutOfBoundsError (field : Field) (lo hi : Z).

Inductive Exception :=
| EmptyReservationError
| ValidationError (index : nat) (reason : OutOfBounds)
| SeatTakenError (taken_row taken_seat taken_session : Z)
| NotFoundError
| ConnectionInterrupted.

Inductive Result (A : Type) :=
| Return (a : A)
| Raise (e : Exception).

Arguments Return {A} a.
Arguments Raise {A} e.

(** ** Seat validator (spec 4.1) *)

Definition in_range (lo x hi : Z) : bool := (lo <=? x) && (x <=? hi).

(** Modelled from the spec: [Ticket.validate_ticket] of [models.py].
    The row is checked before the seat. *)
Definition validate_ticket (row seat : Z) (dome : PlanetariumDome)
  : option OutOfBounds :=
  if negb (in_range 1 row (rows dome))
  then Some (OutOfBoundsError FieldRow 1 (rows dome))
  else if negb (in_range 1 seat (seats_in_row dome))
  then Some (OutOfBoundsError FieldSeat 1 (seats_in_row dome))
  else None.

(** ** Availability accessor ([views.py], [ShowSessionViewSet.queryset]) *)

(** The reverse relation [show_session.tickets]. *)
Definition tickets_of (db : Database) (pk : Z) : list Ticket :=
  filter (λ t, show_session t = pk) (tickets db).

(** SQL [COUNT] over the joined ticket rows of one session. *)
Definition Count (db : Database) (pk : Z) : Z :=
  Z.of_nat (length (tickets_of db pk)).

(** One row of the annotated queryset. *)
Record AnnotatedShowSession := mkAnnotated {
  id : Z;
  session : ShowSession;
  dome : PlanetariumDome;
  tickets_available : Z
}.

(** [ShowSession.objects.select_related("astronomy_show",
    "planetarium_dome").annotate(tickets_available=
      F("planetarium_dome__rows") * F("planetarium_dome__seats_in_row")
      - Count("tickets"))].
    The join on the dome is an inner join: a session whose dome row is
    missing yields no row. *)
Definition annotate (db : Database) (pk : Z) (s : ShowSession)
  : option AnnotatedShowSession :=
  d ← planetarium_domes db !! planetarium_dome s;
  Some {| id := pk;
          session := s;
          dome := d;
          tickets_available := rows d * seats_in_row d - Count db pk |}.

Definition queryset (db : Database) : gmap Z AnnotatedShowSession :=
  map_imap (annotate db) (show_sessions db).

(** The number of tickets that reference session [pk], counted as the
    occurrences of [pk] among the session references of all tickets. *)
Definition referencing (d : Database) (pk : Z) : nat :=
  count_occ Z.eq_dec (show_session <$> tickets d) pk.

(** ** The page cache (django-redis) *)

(** The body of a page: the detail of a show session, or the rendered
    content of any other view. *)
Inductive Body :=
| ShowSessionDetail (a : AnnotatedShowSession)
| Page (content : string).

Inductive Response :=
| HTTP_200_OK (body : Body)
| HTTP_404_NOT_FOUND.

Record CacheEntry := mkEntry {
  value : Response;
  expires_at : Z
}.

(** The cache server: its keys, and whether it can be reached.  Every
    operation on an unreachable server raises [ConnectionInterrupted]. *)
Record Cache := mkCache {
  entries : gmap string CacheEntry;
  connected : bool
}.

Record World := mkWorld {
  db : Database;
  cache : Cache
}.

(** ** The handler monad: state passing with exceptions *)

Definition M (A : Type) : Type := World → Result A * World.

#[global] Instance M_ret : MRet M := λ A a w, (Return a, w).

#[global] Instance M_bind : MBind M := λ A B f m w,
  match m w with
  | (Return a, w') => f a w'
  | (Raise e, w') => (Raise e, w')
  end.

Definition raise {A} (e : Exception) : M A := λ w, (Raise e, w).

Definition get_db : M Database := λ w, (Return (db w), w).

Definition modify_db (f : Database → Database) : M unit :=
  λ w, (Return tt, {| db := f (db w); cache := cache w |}).

Definition lift {A} (r : Result A) : M A := λ w, (r, w).

(** [with transaction.atomic(): ...]: when the block raises, the rows
    written inside it are rolled back; effects on the cache server are
    not part of the transaction. *)
Definition atomic {A} (block : M A) : M A := λ w,
  match block w with
  | (Raise e, w') => (Raise e, {| db := db w; cache := cache w' |})
  | done => done
  end.

(** ** Cache primitives *)

(** Redis glob matching restricted to what [CACHE_PATTERNS] uses:
    literal characters and the wildcard [*]. *)
Fixpoint glob_match (pattern : string) : string → bool :=
  match pattern with
  | EmptyString =>
      λ key, match key with EmptyString => true | String _ _ => false end
  | String c pattern' =>
      if Ascii.eqb c "*"%char
      then fix star (key : string) : bool :=
             glob_match pattern' key ||
             match key with
             | EmptyString => false
             | String _ key' => star key'
             end
      else λ key,
             match key with
             | EmptyString => false
             | String k key' => Ascii.eqb c k && glob_match pattern' key'
             end
  end.

Definition evict (pattern : string) (m : gmap string CacheEntry)
  : gmap string CacheEntry :=
  filter (λ kv, glob_match pattern kv.1 = false) m.

(** [cache.delete_pattern(pattern)] of django-redis: every key matching
    the pattern is deleted; when the server cannot be reached the call
    raises (the backend's default, exceptions are not ignored). *)
Definition delete_pattern (pattern : string) : M unit := λ w,
  if connected (cache w)
  then (Return tt,
        {| db := db w;
           cache := {| entries := evict pattern (entries (cache w));
                       connected := true |} |})
  else (Raise ConnectionInterrupted, w).

(** [cache.get(key)] at time [now]: an entry is live up to and including
    its expiry time, and gone after it. *)
Definition cache_get (now : Z) (key : string) : M (option Response) := λ w,
  if connected (cache w)
  then (Return (e ← entries (cache w) !! key;
                if now <=? expires_at e then Some (value e) else None), w)
  else (Raise ConnectionInterrupted, w).

(** [cache.set(key, value, timeout)] at time [now]. *)
Definition cache_set (now : Z) (key : string) (v : Response) (timeout : Z)
  : M unit := λ w,
  if connected (cache w)
  then (Return tt,
        {| db := db w;
           cache := {| entries := <[key := {| value := v;
                                             expires_at := now + timeout |}]>
                                    (entries (cache w));
                       connected := true |} |})
  else (Raise ConnectionInterrupted, w).

(** ** [signals.py] *)

(** The model classes that send [post_save] and [post_delete]: the five
    of [CACHE_PATTERNS], [Ticket], the user model, and any other model
    of the project. *)
Module sender.
Inductive t :=
| ShowTheme
| PlanetariumDome
| AstronomyShow
| ShowSession
| Reservation
| Ticket
| User
| Other (model : string).
End sender.

Inductive Signal :=
| post_save (created : bool)
| post_delete.

(** [CACHE_PATTERNS.get(sender)]. *)
Definition CACHE_PATTERNS (s : sender.t) : option string :=
  match s with
  | sender.ShowTheme => Some "*show_theme_view*"
  | sender.PlanetariumDome => Some "*planetarium_dome_view*"
  | sender.AstronomyShow => Some "*astronomy_show_view*"
  | sender.ShowSession => Some "*show_session_view*"
  | sender.Reservation => Some "*reservation_view*"
  | sender.Ticket | sender.User | sender.Other _ => None
  end.

(** The five model classes [CACHE_PATTERNS] has a key for. *)
Definition watched : list sender.t :=
  [sender.ShowTheme; sender.PlanetariumDome; sender.AstronomyShow;
   sender.ShowSession; sender.Reservation].

(** Python truthiness of a string. *)
Definition truthy (s : string) : bool :=
  match s with EmptyString => false | String _ _ => true end.

(** [@receiver([post_save, post_delete]) def invalidate_cache(sender,
    instance, **kwargs)].  The receiver reads neither the signal nor the
    instance. *)
Definition invalidate_cache (signal : Signal) (s : sender.t) : M unit :=
  match CACHE_PATTERNS s with
  | Some pattern =>
      if truthy pattern then delete_pattern pattern else mret tt
  | None => mret tt
  end.

(** [Signal.send]: [invalidate_cache] is the only receiver connected, and
    an exception raised by a receiver propagates to the sender of the
    signal, that is to [Model.save] or [Model.delete]. *)
Definition send (signal : Signal) (s : sender.t) : M unit :=
  invalidate_cache signal s.

(** ** [views.py]: the show-session detail view behind [cache_page] *)

(** The key of a cached page.  Django builds it from the [key_prefix],
    the method, a digest of the absolute URL, a digest of the values of
    the headers the response varies on, the language and the time zone;
    the model writes the URL in place of the digests and speaks of the
    requests for a URL that agree on the rest, and so share the entry. *)
Definition page_key (key_prefix url : string) : string :=
  "views.decorators.cache.cache_page." +:+ key_prefix +:+ ".GET." +:+ url.

(** [cache_page(timeout, key_prefix=...)] around a view answering a GET
    request for [url] at time [now]: a cached page that has not expired
    is returned as it is; otherwise the view runs and a 200 response is
    stored for [timeout] seconds. *)
Definition cache_page (timeout : Z) (key_prefix : string)
    (now : Z) (url : string) (view : M Response) : M Response :=
  let key := page_key key_prefix url in
  hit ← cache_get now key;
  match hit with
  | Some response => mret response
  | None =>
      response ← view;
      match response with
      | HTTP_200_OK _ =>
          _ ← cache_set now key response timeout; mret response
      | HTTP_404_NOT_FOUND => mret response
      end
  end.

(** [ShowSessionViewSet.retrieve] for a request without query
    parameters, where [get_queryset] returns [queryset] as it is: the
    row of the annotated queryset with primary key [pk], or 404. *)
Definition detail (d : Database) (pk : Z) : Response :=
  match queryset d !! pk with
  | Some a => HTTP_200_OK (ShowSessionDetail a)
  | None => HTTP_404_NOT_FOUND
  end.

Definition retrieve (pk : Z) : M Response :=
  d ← get_db; mret (detail d pk).

Definition show_session_url (pk : Z) : string :=
  "/api/planetarium/show_sessions/" +:+ pretty pk +:+ "/".

(** [@method_decorator(cache_page(60 * 5, key_prefix="show_session_view"))
    def dispatch(self, request, *args, **kwargs)], for a GET of the
    detail route. *)
Definition dispatch (now : Z) (pk : Z) : M Response :=
  cache_page (60 * 5) "show_session_view" now (show_session_url pk)
    (retrieve pk).

(** The cached detail page of session [pk], if there is one, shows what
    the store holds. *)
Definition coherent_at (pk : Z) (w : World) : Prop :=
  ∀ e, entries (cache w)
         !! page_key "show_session_view" (show_session_url pk) = Some e →
       value e = detail (db w) pk.

(** ** Reservation engine (spec 4.2) *)

(** One element of [ticketRequests]: the body of [POST /reservations]
    names the session by primary key. *)
Record TicketRequest := mkRequest {
  req_row : Z;
  req_seat : Z;
  req_show_session : Z
}.

(** What [createReservation] returns: the reservation row with its
    tickets in request order. *)
Record PersistedReservation := mkPersisted {
  reservation_id : Z;
  owner : Reservation;
  owned : list Ticket
}.

Definition set_tickets (ts : list Ticket) (d : Database) : Database :=
  {| planetarium_domes := planetarium_domes d;
     show_sessions := show_sessions d;
     reservations := reservations d;
     reservation_seq := reservation_seq d;
     tickets := ts |}.

Definition set_reservations (rs : gmap Z Reservation) (seq : Z)
    (d : Database) : Database :=
  {| planetarium_domes := planetarium_domes d;
     show_sessions := show_sessions d;
     reservations := rs;
     reservation_seq := seq;
     tickets := tickets d |}.

Definition set_show_sessions (ss : gmap Z ShowSession) (d : Database)
  : Database :=
  {| planetarium_domes := planetarium_domes d;
     show_sessions := ss;
     reservations := reservations d;
     reservation_seq := reservation_seq d;
     tickets := tickets d |}.

Definition set_planetarium_domes (ds : gmap Z PlanetariumDome)
    (d : Database) : Database :=
  {| planetarium_domes := ds;
     show_sessions := show_sessions d;
     reservations := reservations d;
     reservation_seq := reservation_seq d;
     tickets := tickets d |}.

(** ** Catalogue writes ([views.py], the [ModelViewSet]s) *)

(** Create or update of a show session through [ShowSessionViewSet]:
    [Model.save] writes the row and then sends [post_save]. *)
Definition save_show_session (pk : Z) (s : ShowSession) : M unit :=
  d ← get_db;
  _ ← modify_db (set_show_sessions (<[pk := s]> (show_sessions d)));
  send (post_save (bool_decide (show_sessions d !! pk = None)))
       sender.ShowSession.

(** Create or update of a dome through [PlanetariumDomeViewSet]. *)
Definition save_planetarium_dome (pk : Z) (dome : PlanetariumDome)
  : M unit :=
  d ← get_db;
  _ ← modify_db (set_planetarium_domes (<[pk := dome]> (planetarium_domes d)));
  send (post_save (bool_decide (planetarium_domes d !! pk = None)))
       sender.PlanetariumDome.

(** Modelled from the spec: step 2 of [createReservation], which lives in
    [serializers.py].  Every request is resolved to its session and dome
    and run through the seat validator; the first failure aborts with
    [ValidationError] carrying the index and the reason.  A reference to
    a session or dome that does not exist is a [NotFoundError]. *)
Fixpoint validate_requests (d : Database) (index : nat)
    (reqs : list TicketRequest) : Result unit :=
  match reqs with
  | [] => Return tt
  | r :: reqs' =>
      match show_sessions d !! req_show_session r with
      | None => Raise NotFoundError
      | Some s =>
          match planetarium_domes d !! planetarium_dome s with
          | None => Raise NotFoundError
          | Some dome =>
              match validate_ticket (req_row r) (req_seat r) dome with
              | Some reason => Raise (ValidationError index reason)
              | None => validate_requests d (S index) reqs'
              end
          end
      end
  end.

(** The uniqueness key [(row, seat, show_session)] of a ticket. *)
Definition seat_key (t : Ticket) : Z * Z * Z :=
  (row t, seat t, show_session t).

Definition req_key (r : TicketRequest) : Z * Z * Z :=
  (req_row r, req_seat r, req_show_session r).

Definition seat_taken (d : Database) (r : TicketRequest) : bool :=
  bool_decide (req_key r ∈ seat_key <$> tickets d).

Definition seat_taken_error (r : TicketRequest) : Exception :=
  SeatTakenError (req_row r) (req_seat r) (req_show_session r).

(** Modelled from the spec: step 3 of [createReservation], the check
    inside the transaction that no existing ticket occupies a requested
    triple. *)
Fixpoint check_seats_free (d : Database) (reqs : list TicketRequest)
  : Result unit :=
  match reqs with
  | [] => Return tt
  | r :: reqs' =>
      if seat_taken d r then Raise (seat_taken_error r)
      else check_seats_free d reqs'
  end.

(** Modelled from the spec: step 4, the insert of the reservation row.
    Saving a row sends [post_save] to the receivers of [signals.py]. *)
Definition insert_reservation (user now : Z) : M Z :=
  d ← get_db;
  let pk := reservation_seq d in
  _ ← modify_db
        (set_reservations (<[pk := mkReservation user now]> (reservations d))
                          (pk + 1));
  _ ← send (post_save true) sender.Reservation;
  mret pk.

(** The ticket row a request becomes under reservation [pk]. *)
Definition ticket_of (pk : Z) (r : TicketRequest) : Ticket :=
  {| row := req_row r; seat := req_seat r;
     show_session := req_show_session r; reservation := pk |}.

(** Modelled from the spec: step 4, the insert of one ticket row under
    the storage-layer uniqueness constraint on
    [(show_session, row, seat)]; a violation is translated into
    [SeatTakenError]. *)
Definition insert_ticket (pk : Z) (r : TicketRequest) : M Ticket :=
  d ← get_db;
  if seat_taken d r then raise (seat_taken_error r)
  else
    let t := ticket_of pk r in
    _ ← modify_db (set_tickets (tickets d ++ [t]));
    _ ← send (post_save true) sender.Ticket;
    mret t.

Fixpoint insert_tickets (pk : Z) (reqs : list TicketRequest)
  : M (list Ticket) :=
  match reqs with
  | [] => mret []
  | r :: reqs' =>
      t ← insert_ticket pk r;
      ts ← insert_tickets pk reqs';
      mret (t :: ts)
  end.

(** Modelled from the spec: steps 3, 4 and 5 of [createReservation], the
    body of the transaction. *)
Definition reserve (user now : Z) (ticketRequests : list TicketRequest)
  : M PersistedReservation :=
  d ← get_db;
  _ ← lift (check_seats_free d ticketRequests);
  pk ← insert_reservation user now;
  ts ← insert_tickets pk ticketRequests;
  mret {| reservation_id := pk;
          owner := mkReservation user now;
          owned := ts |}.

(** Modelled from the spec: [createReservation(user, ticketRequests)] of
    spec 4.2, steps 1 to 5; the code is [ReservationSerializer] in
    [serializers.py], reached from [ReservationViewSet.perform_create]. *)
Definition createReservation (user now : Z)
    (ticketRequests : list TicketRequest) : M PersistedReservation :=
  match ticketRequests with
  | [] => raise EmptyReservationError
  | _ :: _ =>
      d ← get_db;
      _ ← lift (validate_requests d 0 ticketRequests);
      atomic (reserve user now ticketRequests)
  end.

(** Modelled from the spec: the status codes of section 7.  An exception
    outside the taxonomy is an internal server error. *)
Definition status_code (e : Exception) : Z :=
  match e with
  | EmptyReservationError | ValidationError _ _ | SeatTakenError _ _ _ => 400
  | NotFoundError => 404
  | ConnectionInterrupted => 500
  end.

(** [POST /reservations]: [ReservationViewSet.perform_create] behind the
    framework's exception handler. *)
Definition post_reservations (user now : Z) (reqs : list TicketRequest)
    (w : World) : Z * option PersistedReservation * World :=
  match createReservation user now reqs w with
  | (Return r, w') => (201, Some r, w')
  | (Raise e, w') => (status_code e, None, w')
  end.

Fixpoint send_each (signal : Signal) (s : sender.t) (n : nat) : M unit :=
  match n with
  | O => mret tt
  | S n' => _ ← send signal s; send_each signal s n'
  end.


(** ** Reachable states *)

Definition set_connected (b : bool) (w : World) : World :=
  {| db := db w;
     cache := {| entries := entries (cache w); connected := b |} |}.





(** The request lies inside the grid of its session's dome. *)
Definition in_bounds (d : Database) (r : TicketRequest) : Prop :=
  ∃ s dome,
    show_sessions d !! req_show_session r = Some s ∧
    planetarium_domes d !! planetarium_dome s = Some dome ∧
    1 <= req_row r <= rows dome ∧ 1 <= req_seat r <= seats_in_row dome.

(** The request names a session with a dome, but a row or seat outside
    the grid. *)
Definition out_of_bounds (d : Database) (r : TicketRequest) : Prop :=
  ∃ s dome,
    show_sessions d !! req_show_session r = Some s ∧
    planetarium_domes d !! planetarium_dome s = Some dome ∧
    ¬ (1 <= req_row r <= rows dome ∧ 1 <= req_seat r <= seats_in_row dome).


(** ** The worked example of spec section 8 *)

(** A 10 x 10 dome, one session [1] in it, nothing sold, an empty cache
    that answers. *)
Definition example_dome : PlanetariumDome := mkDome "Main Dome" 10 10.

Definition example_db : Database :=
  {| planetarium_domes := {[ 1 := example_dome ]};
     show_sessions := {[ 1 := mkSession 1 1 0 ]};
     reservations := ∅;
     reservation_seq := 1;
     tickets := [] |}.

Definition example_world : World :=
  {| db := example_db;
     cache := {| entries := ∅; connected := true |} |}.

(** The example world with two pages in the cache: the detail of
    session [1] and a page of the show-theme list. *)
Definition show_session_page : string :=
  page_key "show_session_view" (show_session_url 1).

Definition show_theme_page : string :=
  page_key "show_theme_view" "/api/planetarium/show_themes/".

Definition example_world_cached : World :=
  {| db := example_db;
     cache :=
       {| entries :=
            {[ show_session_page :=
                 {| value := HTTP_200_OK (Page "session 1");
                    expires_at := 300 |};
               show_theme_page :=
                 {| value := HTTP_200_OK (Page "themes");
                    expires_at := 300 |} ]};
          connected := true |} |}.

(** The same world while the cache server cannot be reached. *)
Definition example_world_down : World := set_connected false example_world.

(** The example world after user [7] reserved row 5, seat 5 of session
    [1] at time [10]. *)
Definition example_world_sold : World :=
  (createReservation 7 10 [mkRequest 5 5 1] example_world).2.

(** The fixture of [test_serializers.py]: a 10 x 15 dome, the session
    of [setUp] ([1]) with its ticket for row 5, seat 10, and the session
    the tests create ([2]). *)
Definition serializer_tests_world : World :=
  {| db := {| planetarium_domes := {[ 1 := mkDome "Main Dome" 10 15 ]};
              show_sessions := {[ 1 := mkSession 1 1 0;
                                  2 := mkSession 1 1 3600 ]};
              reservations := {[ 1 := mkReservation 1 0 ]};
              reservation_seq := 2;
              tickets := [mkTicket 5 10 1 1] |};
     cache := {| entries := ∅; connected := true |} |}.

(** ** The stale page scenario *)

(** [tickets_available] as a response of the detail view shows it. *)
Definition availability (r : Result Response) : option Z :=
  match r with
  | Return (HTTP_200_OK (ShowSessionDetail a)) => Some (tickets_available a)
  | _ => None
  end.

(** The example world after [GET /show_sessions/1/] at time [0]. *)
Definition example_world_read : World := (dispatch 0 1 example_world).2.

(** Then user [7] reserves row 5, seat 5 of session [1] at time [10]. *)
Definition example_world_stale : World :=
  (createReservation 7 10 [mkRequest 5 5 1] example_world_read).2.

(** Then [GET /show_sessions/1/] at time [299]. *)
Definition example_world_reread : World :=
  (dispatch 299 1 example_world_stale).2.

(** ** [views.py]: [AstronomyShowViewSet]

    Strings are sequences of code points below 256. *)

(** The decimal digits [0] to [9]. *)
Definition is_decimal (c : ascii) : bool :=
  (48 <=? nat_of_ascii c)%nat && (nat_of_ascii c <=? 57)%nat.

(** The superscript digits [U+00B2], [U+00B3] and [U+00B9], the other
    code points below 256 that [str.isdigit] accepts. *)
Definition is_superscript (c : ascii) : bool :=
  (nat_of_ascii c =? 178)%nat || (nat_of_ascii c =? 179)%nat
  || (nat_of_ascii c =? 185)%nat.

Fixpoint all_chars (p : ascii → bool) (s : string) : bool :=
  match s with
  | EmptyString => true
  | String c s' => p c && all_chars p s'
  end.

(** [str.isdigit()]: the string is not empty and every character is a
    digit. *)
Definition isdigit (s : string) : bool :=
  truthy s && all_chars (λ c, is_decimal c || is_superscript c) s.

(** [str.split(",")]: the pieces between the commas, at least one. *)
Fixpoint split (s : string) : list string :=
  match s with
  | EmptyString => [EmptyString]
  | String c s' =>
      if Ascii.eqb c ","%char then EmptyString :: split s'
      else match split s' with
           | [] => [String c EmptyString]
           | piece :: pieces => String c piece :: pieces
           end
  end.

(** [",".join(pieces)]. *)
Fixpoint join (pieces : list string) : string :=
  match pieces with
  | [] => EmptyString
  | [piece] => piece
  | piece :: pieces' => piece +:+ "," +:+ join pieces'
  end.

Definition digit_value (c : ascii) : Z := Z.of_nat (nat_of_ascii c) - 48.

Fixpoint int_go (acc : Z) (s : string) : option Z :=
  match s with
  | EmptyString => Some acc
  | String c s' =>
      if is_decimal c then int_go (acc * 10 + digit_value c) s' else None
  end.

(** [sys.int_info.default_max_str_digits]. *)
Definition max_str_digits : nat := 4300.

(** [int(s)] for a string [s] that passed [isdigit]; [None] stands for
    the [ValueError] that [int] raises on a superscript digit and on
    more than [max_str_digits] digits. *)
Definition int (s : string) : option Z :=
  if (max_str_digits <? String.length s)%nat then None else int_go 0 s.

(** [AstronomyShowViewSet._params_to_ints]:
    [[int(str_id) for str_id in qs.split(",") if str_id.isdigit()]];
    [None] stands for a [ValueError] out of [int]. *)
Definition _params_to_ints (qs : string) : option (list Z) :=
  mapM int (filter (λ str_id, isdigit str_id = true) (split qs)).

(** The rows of [AstronomyShow] that the view reads: title and
    description; the themes of a show are the rows of the many-to-many
    table [show_theme], pairs of a show and a theme. *)
Record AstronomyShow := mkShow {
  title : string;
  description : string
}.

#[global] Instance AstronomyShow_eq_dec : EqDecision AstronomyShow.
Proof. solve_decision. Defined.

Record Catalogue := mkCatalogue {
  astronomy_shows : list (Z * AstronomyShow);
  show_theme : list (Z * Z)
}.

(** What [request.query_params.get] returned is truthy: present and not
    empty. *)
Definition given (param : option string) : bool :=
  match param with
  | Some s => truthy s
  | None => false
  end.

Module AstronomyShowViewSet.
Section get_queryset.

(** [title__icontains]: whether the first string contains the second,
    case-insensitively, as the database backend decides it. *)
Variable icontains : string → string → bool.

(** [queryset.filter(show_theme__id__in=ids)]: the join of the shows
    with the many-to-many table, one row per theme of the show among
    [ids]. *)
Definition filter_show_theme (c : Catalogue) (ids : list Z)
    (rows : list (Z * AstronomyShow)) : list (Z * AstronomyShow) :=
  row ← rows;
  link ← filter (λ link, link.1 = row.1 ∧ link.2 ∈ ids) (show_theme c);
  [row].

(** [AstronomyShowViewSet.get_queryset] for the query parameters [title]
    and [show_theme]; [None] stands for a [ValueError] out of
    [_params_to_ints]. *)
Definition get_queryset (c : Catalogue) (title_param : option string)
    (show_theme_param : option string)
  : option (list (Z * AstronomyShow)) :=
  let queryset := astronomy_shows c in
  let queryset :=
    if given title_param
    then filter (λ row, icontains (title row.2) (default "" title_param) = true)
                queryset
    else queryset in
  queryset ←
    (if given show_theme_param
     then show_theme_ids ← _params_to_ints (default "" show_theme_param);
          Some (filter_show_theme c show_theme_ids queryset)
     else Some queryset);
  Some (remove_dups queryset).

End get_queryset.
End AstronomyShowViewSet.

(** ASCII case folding and substring search, the way every backend
    decides [icontains] on ASCII strings. *)
Definition lower_char (c : ascii) : ascii :=
  if (65 <=? nat_of_ascii c)%nat && (nat_of_ascii c <=? 90)%nat
  then ascii_of_nat (nat_of_ascii c + 32) else c.

Fixpoint lower (s : string) : string :=
  match s with
  | EmptyString => EmptyString
  | String c s' => String (lower_char c) (lower s')
  end.

Fixpoint starts_with (s prefix : string) : bool :=
  match prefix, s with
  | EmptyString, _ => true
  | String _ _, EmptyString => false
  | String p prefix', String c s' => Ascii.eqb p c && starts_with s' prefix'
  end.

Fixpoint contains (s sub : string) : bool :=
  starts_with s sub ||
  match s with
  | EmptyString => false
  | String _ s' => contains s' sub
  end.

Definition icontains_ascii (s sub : string) : bool :=
  contains (lower s) (lower sub).

(** ** [views.py]: the [key_prefix] of each cached view *)

(** The [key_prefix] that [cache_page] gets around the [dispatch] of the
    view of a model class.  The prefix of [ReservationViewSet] is a
    function of the request and not a string; it is left out. *)
Definition key_prefix (s : sender.t) : option string :=
  match s with
  | sender.ShowTheme => Some "show_theme_view"
  | sender.PlanetariumDome => Some "planetarium_dome_view"
  | sender.AstronomyShow => Some "astronomy_show_view"
  | sender.ShowSession => Some "show_session_view"
  | _ => None
  end.

(** The fixture of [test_filter_astronomy_shows_by_show_themes] and of
    [test_filter_astronomy_show_by_title] in [test_api.py]. *)
Definition themes_catalogue : Catalogue :=
  {| astronomy_shows :=
       [(1, mkShow "Astronomy Show 1" "Sample description");
        (2, mkShow "Astronomy Show 2" "Sample description");
        (3, mkShow "Astronomy Show without show theme" "Sample description")];
     show_theme := [(1, 1); (2, 2)] |}.

Definition titles_catalogue : Catalogue :=
  {| astronomy_shows :=
       [(1, mkShow "Astronomy Show" "Sample description");
        (2, mkShow "Another Astronomy Show" "Sample description");
        (3, mkShow "No match" "Sample description")];
     show_theme := [] |}.

(** * Properties *)

(** ** The seat validator *)

Lemma in_range_spec lo x hi : in_range lo x hi = true ↔ lo <= x <= hi.
Proof. unfold in_range. rewrite andb_true_iff, !Z.leb_le. done. Qed.

Lemma validate_ticket_None r s d :
  validate_ticket r s d = None ↔
  1 <= r <= rows d ∧ 1 <= s <= seats_in_row d.
Proof.
  unfold validate_ticket.
  destruct (in_range 1 r (rows d)) eqn:Hr;
    destruct (in_range 1 s (seats_in_row d)) eqn:Hs; simpl;
    rewrite <- !in_range_spec, Hr, Hs; intuition congruence.
Qed.

(** The tests of [test_models.py] and [test_serializers.py] on the
    validator: a 10 x 10 dome accepts (5, 5) and rejects row 15; a
    10 x 15 dome accepts (5, 10) and rejects row 11. *)
Example test_ticket_validation :
  validate_ticket 5 5 (mkDome "Main Dome" 10 10) = None ∧
  validate_ticket 15 5 (mkDome "Main Dome" 10 10)
    = Some (OutOfBoundsError FieldRow 1 10).
Proof. split; reflexivity. Qed.

Example test_ticket_serializer_validation_error :
  validate_ticket 5 10 (mkDome "Main Dome" 10 15) = None ∧
  validate_ticket 11 5 (mkDome "Main Dome" 10 15)
    = Some (OutOfBoundsError FieldRow 1 10).
Proof. split; reflexivity. Qed.

(** C4. A candidate ticket passes the seat validator exactly when
    [1 <= row <= dome.rows] and [1 <= seat <= dome.seats_in_row]; any
    other ticket is rejected with an [OutOfBoundsError] that names a
    field which is really out of range, together with the valid range
    [1 .. rows] or [1 .. seats_in_row] of that field. *)
Theorem validate_ticket_iff_in_grid (r s : Z) (d : PlanetariumDome) :
  (validate_ticket r s d = None ↔
     1 <= r <= rows d ∧ 1 <= s <= seats_in_row d) ∧
  (¬ (1 <= r <= rows d ∧ 1 <= s <= seats_in_row d) →
     ∃ field hi,
       validate_ticket r s d = Some (OutOfBoundsError field 1 hi) ∧
       ((field = FieldRow ∧ hi = rows d ∧ ¬ 1 <= r <= rows d) ∨
        (field = FieldSeat ∧ hi = seats_in_row d ∧
           ¬ 1 <= s <= seats_in_row d))).
Proof.
  split; [apply validate_ticket_None|].
  intros Hout. unfold validate_ticket.
  destruct (in_range 1 r (rows d)) eqn:Hr; simpl.
  - destruct (in_range 1 s (seats_in_row d)) eqn:Hs; simpl.
    + apply in_range_spec in Hr, Hs. tauto.
    + exists FieldSeat, (seats_in_row d). split; [done|]. right.
      repeat split. rewrite <- in_range_spec. congruence.
  - exists FieldRow, (rows d). split; [done|]. left.
    repeat split. rewrite <- in_range_spec. congruence.
Qed.

Lemma validate_ticket_iff_in_grid_witness :
  ∃ field hi,
    validate_ticket 15 5 (mkDome "Main Dome" 10 10)
      = Some (OutOfBoundsError field 1 hi) ∧
    ((field = FieldRow ∧ hi = 10 ∧ ¬ 1 <= 15 <= 10) ∨
     (field = FieldSeat ∧ hi = 10 ∧ ¬ 1 <= 5 <= 10)).
Proof.
  apply (proj2 (validate_ticket_iff_in_grid 15 5 (mkDome "Main Dome" 10 10))).
  simpl. lia.
Defined.

(** ** The availability accessor *)

Lemma Count_referencing d pk : Count d pk = Z.of_nat (referencing d pk).
Proof.
  unfold Count, referencing, tickets_of. f_equal.
  induction (tickets d) as [|t ts IH]; [done|].
  rewrite filter_cons. simpl.
  destruct (decide (show_session t = pk)) as [->|Hne].
  - destruct (Z.eq_dec pk pk); [|done]. simpl. f_equal. exact IH.
  - destruct (Z.eq_dec (show_session t) pk); [done|exact IH].
Qed.

Lemma queryset_lookup d pk :
  queryset d !! pk = show_sessions d !! pk ≫= annotate d pk.
Proof. apply map_lookup_imap. Qed.

(** The test of [test_models.py] on the capacity of a 10 x 10 dome. *)
Example test_planetarium_dome_capacity :
  capacity (mkDome "Main Dome" 10 10) = 100.
Proof. reflexivity. Qed.

Lemma queryset_tickets_available
    (d : Database) (pk : Z) (s : ShowSession) (dome : PlanetariumDome) :
  show_sessions d !! pk = Some s →
  planetarium_domes d !! planetarium_dome s = Some dome →
  tickets_available <$> queryset d !! pk
    = Some (capacity dome - Z.of_nat (referencing d pk)).
Proof.
  intros Hs Hd.
  rewrite queryset_lookup, Hs. simpl. unfold annotate. rewrite Hd. simpl.
  by rewrite Count_referencing.
Qed.

(** C5. Reading a session through the annotated queryset yields
    [tickets_available = dome.capacity - count(tickets referencing the
    session)], with [capacity = rows * seats_in_row]; the value is
    computed from the ticket table as it is at the read, so that with
    any other ticket table in its place the read follows that table: no
    stored counter is involved. *)
Theorem tickets_available_is_capacity_minus_sold
    (d : Database) (pk : Z) (s : ShowSession) (dome : PlanetariumDome) :
  show_sessions d !! pk = Some s →
  planetarium_domes d !! planetarium_dome s = Some dome →
  capacity dome = rows dome * seats_in_row dome ∧
  tickets_available <$> queryset d !! pk
    = Some (capacity dome - Z.of_nat (referencing d pk)) ∧
  ∀ ts : list Ticket,
    tickets_available <$> queryset (set_tickets ts d) !! pk
      = Some (capacity dome
              - Z.of_nat (count_occ Z.eq_dec (show_session <$> ts) pk)).
Proof.
  intros Hs Hd. split; [done|].
  split; [by apply (queryset_tickets_available d pk s dome)|].
  intros ts. by apply (queryset_tickets_available (set_tickets ts d) pk s dome).
Qed.

Lemma tickets_available_is_capacity_minus_sold_witness :
  capacity example_dome = rows example_dome * seats_in_row example_dome ∧
  tickets_available <$> queryset example_db !! 1
    = Some (capacity example_dome - Z.of_nat (referencing example_db 1)) ∧
  ∀ ts : list Ticket,
    tickets_available <$> queryset (set_tickets ts example_db) !! 1
      = Some (capacity example_dome
              - Z.of_nat (count_occ Z.eq_dec (show_session <$> ts) 1)).
Proof.
  apply (tickets_available_is_capacity_minus_sold
           example_db 1 (mkSession 1 1 0) example_dome);
    vm_compute; reflexivity.
Defined.

(** ** The handler monad *)

Lemma bind_run {A B} (m : M A) (f : A → M B) (w : World) :
  (m ≫= f) w =
  match m w with
  | (Return a, w') => f a w'
  | (Raise e, w') => (Raise e, w')
  end.
Proof. reflexivity. Qed.


(** ** Cache invalidation *)

Lemma evict_lookup (pattern : string) (m : gmap string CacheEntry) key :
  evict pattern m !! key = if glob_match pattern key then None else m !! key.
Proof.
  unfold evict. destruct (glob_match pattern key) eqn:Hm.
  - apply map_lookup_filter_None. right. intros x _. simpl. congruence.
  - destruct (m !! key) as [x|] eqn:Hk.
    + by apply map_lookup_filter_Some.
    + apply map_lookup_filter_None. by left.
Qed.

Lemma delete_pattern_connected pattern w :
  connected (cache w) = true →
  delete_pattern pattern w =
    (Return tt,
     {| db := db w;
        cache := {| entries := evict pattern (entries (cache w));
                    connected := true |} |}).
Proof. intros Hc. unfold delete_pattern. by rewrite Hc. Qed.

Lemma delete_pattern_disconnected pattern w :
  connected (cache w) = false →
  delete_pattern pattern w = (Raise ConnectionInterrupted, w).
Proof. intros Hc. unfold delete_pattern. by rewrite Hc. Qed.

Lemma watched_pattern s :
  s ∈ watched ↔ ∃ pattern, CACHE_PATTERNS s = Some pattern.
Proof.
  unfold watched. split.
  - intros Hs%list_elem_of_In. simpl in Hs.
    destruct s; simpl; eauto; intuition discriminate.
  - intros [p Hp]. apply list_elem_of_In.
    destruct s; simpl in *; try discriminate; tauto.
Qed.

Lemma pattern_truthy s pattern :
  CACHE_PATTERNS s = Some pattern → truthy pattern = true.
Proof. destruct s; simpl; intros Hp; inversion Hp; done. Qed.

Lemma invalidate_cache_watched signal s pattern :
  CACHE_PATTERNS s = Some pattern →
  invalidate_cache signal s = delete_pattern pattern.
Proof.
  intros Hp. unfold invalidate_cache.
  by rewrite Hp, (pattern_truthy _ _ Hp).
Qed.

Lemma invalidate_cache_unwatched signal s w :
  CACHE_PATTERNS s = None → invalidate_cache signal s w = (Return tt, w).
Proof. intros Hp. unfold invalidate_cache. by rewrite Hp. Qed.

Lemma invalidate_cache_db signal s w :
  db (invalidate_cache signal s w).2 = db w.
Proof.
  unfold invalidate_cache.
  destruct (CACHE_PATTERNS s) as [p|]; [|done].
  destruct (truthy p); [|done].
  unfold delete_pattern. by destruct (connected (cache w)).
Qed.

(** C6. For a create ([post_save], created), an update ([post_save], not
    created) or a delete ([post_delete]) of an instance of one of the
    five watched kinds, the receiver issues exactly the eviction of that
    kind's one pattern: it leaves the store and every cache entry whose
    key does not match the pattern as they were, and, the cache server
    answering, it returns normally and no entry whose key matches the
    pattern is left. *)
Theorem invalidate_cache_evicts_exactly_pattern
    (signal : Signal) (s : sender.t) :
  s ∈ watched →
  ∃ pattern,
    CACHE_PATTERNS s = Some pattern ∧
    invalidate_cache signal s = delete_pattern pattern ∧
    ∀ w,
      db (invalidate_cache signal s w).2 = db w ∧
      (∀ key, glob_match pattern key = false →
         entries (cache (invalidate_cache signal s w).2) !! key
           = entries (cache w) !! key) ∧
      (connected (cache w) = true →
         (invalidate_cache signal s w).1 = Return tt ∧
         ∀ key, glob_match pattern key = true →
           entries (cache (invalidate_cache signal s w).2) !! key = None).
Proof.
  intros Hs. apply watched_pattern in Hs as [pattern Hp].
  exists pattern. split; [done|].
  split; [by apply invalidate_cache_watched|].
  intros w. split; [apply invalidate_cache_db|].
  rewrite (invalidate_cache_watched signal s pattern Hp).
  split.
  - intros key Hk. unfold delete_pattern.
    destruct (connected (cache w)); [|done].
    simpl. by rewrite evict_lookup, Hk.
  - intros Hc. rewrite (delete_pattern_connected _ _ Hc). simpl.
    split; [done|]. intros key Hk. by rewrite evict_lookup, Hk.
Qed.

Lemma invalidate_cache_evicts_exactly_pattern_witness :
  entries (cache (invalidate_cache post_delete sender.ShowSession
                    example_world_cached).2) !! show_session_page = None ∧
  entries (cache (invalidate_cache post_delete sender.ShowSession
                    example_world_cached).2) !! show_theme_page
    = entries (cache example_world_cached) !! show_theme_page.
Proof.
  destruct (invalidate_cache_evicts_exactly_pattern
              post_delete sender.ShowSession)
    as (pattern & Hp & _ & Hw).
  { apply list_elem_of_In. simpl. tauto. }
  injection Hp as <-.
  destruct (Hw example_world_cached) as (_ & Hframe & Hevict).
  split.
  - apply Hevict; vm_compute; reflexivity.
  - apply Hframe. vm_compute. reflexivity.
Defined.

(** ** The reservation engine *)



Lemma validate_requests_Return d reqs : ∀ index,
  validate_requests d index reqs = Return tt → Forall (in_bounds d) reqs.
Proof.
  induction reqs as [|r reqs IH]; intros index Hv; [constructor|].
  simpl in Hv.
  destruct (show_sessions d !! req_show_session r) as [s|] eqn:Hs;
    [|discriminate].
  destruct (planetarium_domes d !! planetarium_dome s) as [dome|] eqn:Hd;
    [|discriminate].
  destruct (validate_ticket (req_row r) (req_seat r) dome) eqn:Ht;
    [discriminate|].
  constructor; [|by eapply IH].
  exists s, dome. apply validate_ticket_None in Ht. tauto.
Qed.


Lemma validate_requests_Raise d reqs e : ∀ index,
  validate_requests d index reqs = Raise e →
  e = NotFoundError ∨ ∃ i reason, e = ValidationError i reason.
Proof.
  induction reqs as [|r reqs IH]; intros index Hv; [discriminate|].
  simpl in Hv.
  destruct (show_sessions d !! req_show_session r) as [s|];
    [|left; congruence].
  destruct (planetarium_domes d !! planetarium_dome s) as [dome|];
    [|left; congruence].
  destruct (validate_ticket (req_row r) (req_seat r) dome) as [reason|].
  - right. exists index, reason. congruence.
  - by eapply IH.
Qed.

Lemma in_bounds_not_out d r : in_bounds d r → ¬ out_of_bounds d r.
Proof.
  intros (s & dome & Hs & Hd & Hr) (s' & dome' & Hs' & Hd' & Hout).
  rewrite Hs in Hs'. injection Hs' as <-.
  rewrite Hd in Hd'. injection Hd' as <-. tauto.
Qed.



Lemma insert_ticket_run pk r w :
  insert_ticket pk r w =
  if seat_taken (db w) r then (Raise (seat_taken_error r), w)
  else (Return (ticket_of pk r),
        {| db := set_tickets (tickets (db w) ++ [ticket_of pk r]) (db w);
           cache := cache w |}).
Proof.
  unfold insert_ticket. rewrite bind_run. unfold get_db.
  destruct (seat_taken (db w) r); [done|].
  rewrite bind_run. unfold modify_db. rewrite bind_run.
  unfold send. by rewrite invalidate_cache_unwatched.
Qed.

Lemma seat_taken_snoc d t r :
  seat_taken (set_tickets (tickets d ++ [t]) d) r = false ↔
  seat_taken d r = false ∧ req_key r ≠ seat_key t.
Proof.
  unfold seat_taken. simpl.
  rewrite !bool_decide_eq_false, fmap_app, elem_of_app. simpl.
  rewrite list_elem_of_singleton. tauto.
Qed.

Lemma seat_key_ticket_of pk r : seat_key (ticket_of pk r) = req_key r.
Proof. reflexivity. Qed.

(** What a run of the ticket inserts does: either every request was
    free and distinct from the others and the rows are appended in
    request order, or the run stops at a taken seat with the cache
    untouched. *)
Lemma insert_tickets_run pk reqs : ∀ w,
  match insert_tickets pk reqs w with
  | (Return ts, w') =>
      ts = ticket_of pk <$> reqs ∧
      w' = {| db := set_tickets (tickets (db w) ++ ts) (db w);
              cache := cache w |} ∧
      (∀ r, r ∈ reqs → seat_taken (db w) r = false) ∧
      NoDup (req_key <$> reqs)
  | (Raise e, w') =>
      cache w' = cache w ∧ ∃ r, r ∈ reqs ∧ e = seat_taken_error r
  end.
Proof.
  induction reqs as [|r reqs IH]; intros w.
  - simpl. unfold mret, M_ret. rewrite app_nil_r.
    repeat split; [|intros r Hr; by apply elem_of_nil in Hr|constructor].
    by destruct w as [[] ?].
  - simpl. rewrite bind_run, insert_ticket_run.
    destruct (seat_taken (db w) r) eqn:Ht.
    { split; [done|]. exists r. split; [by left|done]. }
    rewrite bind_run.
    set (w1 := {| db := set_tickets (tickets (db w) ++ [ticket_of pk r])
                          (db w);
                  cache := cache w |}).
    specialize (IH w1).
    destruct (insert_tickets pk reqs w1) as [[ts|e] w'].
    + destruct IH as (-> & -> & Hfree & Hnd). unfold mret, M_ret.
      split; [done|]. split.
      { simpl. by rewrite <- app_assoc. }
      split.
      * intros r' [->|Hin]%elem_of_cons; [done|].
        specialize (Hfree r' Hin). subst w1. simpl in Hfree.
        by apply seat_taken_snoc in Hfree as [? _].
      * constructor; [|done].
        change (req_key r ∉ req_key <$> reqs).
        rewrite list_elem_of_fmap. intros (r' & Hk & Hin).
        specialize (Hfree r' Hin). subst w1. simpl in Hfree.
        apply seat_taken_snoc in Hfree as [_ Hne].
        rewrite seat_key_ticket_of in Hne. congruence.
    + destruct IH as (Hc & r' & Hin & He). split; [done|].
      exists r'. split; [by right|done].
Qed.


Lemma createReservation_nonempty user now reqs w :
  reqs ≠ [] →
  createReservation user now reqs w =
  match validate_requests (db w) 0 reqs with
  | Return _ => atomic (reserve user now reqs) w
  | Raise e => (Raise e, w)
  end.
Proof.
  intros Hne. destruct reqs as [|r reqs]; [done|].
  unfold createReservation. rewrite bind_run. unfold get_db.
  rewrite bind_run. unfold lift.
  by destruct (validate_requests (db w) 0 (r :: reqs)).
Qed.






Lemma send_each_Ticket signal n w :
  send_each signal sender.Ticket n w = (Return tt, w).
Proof.
  induction n as [|n IH]; [done|].
  simpl. rewrite bind_run. unfold send.
  by rewrite invalidate_cache_unwatched.
Qed.




(** The cached detail view, case by case. *)
Lemma dispatch_run now pk w :
  dispatch now pk w =
  let key := page_key "show_session_view" (show_session_url pk) in
  if connected (cache w)
  then
    match e ← entries (cache w) !! key;
          if now <=? expires_at e then Some (value e) else None with
    | Some response => (Return response, w)
    | None =>
        match queryset (db w) !! pk with
        | Some a =>
            (Return (HTTP_200_OK (ShowSessionDetail a)),
             {| db := db w;
                cache :=
                  {| entries :=
                       <[key := {| value := HTTP_200_OK (ShowSessionDetail a);
                                   expires_at := now + 60 * 5 |}]>
                         (entries (cache w));
                     connected := true |} |})
        | None => (Return HTTP_404_NOT_FOUND, w)
        end
    end
  else (Raise ConnectionInterrupted, w).
Proof.
  unfold dispatch, cache_page. rewrite bind_run. unfold cache_get.
  destruct (connected (cache w)) eqn:Hc; [|done]. simpl.
  destruct (entries (cache w) !! _ ≫= _) as [response|]; [done|].
  rewrite bind_run. unfold retrieve. rewrite bind_run. unfold get_db.
  unfold mret at 1, M_ret at 1. unfold detail.
  destruct (queryset (db w) !! pk) as [a|]; [|done].
  rewrite bind_run. unfold cache_set. by rewrite Hc.
Qed.

Lemma dispatch_db now pk w : db (dispatch now pk w).2 = db w.
Proof.
  rewrite dispatch_run. simpl.
  destruct (connected (cache w)); [|done].
  destruct (entries (cache w) !! _ ≫= _); [done|].
  by destruct (queryset (db w) !! pk).
Qed.






(** The example of spec section 8 on the 10 x 10 dome: row 5, seat 5 is
    reserved and 99 seats remain; row 15 is rejected as out of bounds
    and 99 seats remain; row 5, seat 5 again is rejected as taken. *)
Example spec_section_8 :
  tickets_available <$> queryset (db example_world) !! 1 = Some 100 ∧
  tickets_available <$> queryset (db example_world_sold) !! 1 = Some 99 ∧
  createReservation 7 20 [mkRequest 15 5 1] example_world_sold
    = (Raise (ValidationError 0 (OutOfBoundsError FieldRow 1 10)),
       example_world_sold) ∧
  createReservation 7 30 [mkRequest 5 5 1] example_world_sold
    = (Raise (SeatTakenError 5 5 1), example_world_sold).
Proof. repeat split; vm_compute; reflexivity. Qed.

(** The tests of [test_serializers.py] on the reservation serializer:
    two free seats of a fresh session are reserved as two tickets of the
    user; a ticket in row 11 of a dome with 10 rows is a validation
    error. *)
Example test_reservation_serializer :
  ∃ p w',
    createReservation 1 10 [mkRequest 5 10 2; mkRequest 5 11 2]
      serializer_tests_world = (Return p, w') ∧
    length (owned p) = 2%nat ∧ user (owner p) = 1.
Proof. do 2 eexists. vm_compute. repeat split. Qed.

Example test_reservation_serializer_validation_error :
  createReservation 1 10 [mkRequest 11 10 1] serializer_tests_world
    = (Raise (ValidationError 0 (OutOfBoundsError FieldRow 1 10)),
       serializer_tests_world).
Proof. vm_compute. reflexivity. Qed.

(** C8. A call with an empty list of ticket requests is rejected with
    [EmptyReservationError], which [POST /reservations] answers with
    status 400, and the store (and the cache) stay as they were. *)
Theorem empty_reservation_rejected (user now : Z) (w : World) :
  createReservation user now [] w = (Raise EmptyReservationError, w) ∧
  post_reservations user now [] w = (400, None, w).
Proof. split; reflexivity. Qed.

(** C2. A request list holding a ticket whose row or seat lies outside
    the grid of its session's dome makes [createReservation] fail, with
    a validation error or, for a dangling reference elsewhere in the
    list, [NotFoundError]; the world it returns is the one it was given:
    no ticket and no reservation row is persisted, whatever else the
    list holds. *)
Theorem out_of_bounds_ticket_aborts_reservation
    (user now : Z) (reqs : list TicketRequest) (r : TicketRequest)
    (w : World) :
  r ∈ reqs → out_of_bounds (db w) r →
  ∃ e, createReservation user now reqs w = (Raise e, w) ∧
       (e = NotFoundError ∨ ∃ i reason, e = ValidationError i reason).
Proof.
  intros Hin Hout.
  assert (reqs ≠ []) as Hne by (intros ->; by apply elem_of_nil in Hin).
  rewrite createReservation_nonempty by done.
  destruct (validate_requests (db w) 0 reqs) as [[]|e] eqn:Hv.
  - apply validate_requests_Return in Hv.
    rewrite Forall_forall in Hv.
    destruct (in_bounds_not_out _ _ (Hv r Hin) Hout).
  - exists e. split; [done|]. by eapply validate_requests_Raise.
Qed.

Lemma out_of_bounds_ticket_aborts_reservation_witness :
  ∃ e, createReservation 7 10 [mkRequest 5 6 1; mkRequest 15 5 1]
         example_world = (Raise e, example_world) ∧
       (e = NotFoundError ∨ ∃ i reason, e = ValidationError i reason).
Proof.
  apply (out_of_bounds_ticket_aborts_reservation 7 10
           [mkRequest 5 6 1; mkRequest 15 5 1] (mkRequest 15 5 1)
           example_world).
  - apply list_elem_of_In. simpl. tauto.
  - exists (mkSession 1 1 0), example_dome.
    split; [reflexivity|]. split; [reflexivity|]. simpl. lia.
Defined.





(** ** Cache failures and unwatched kinds *)

(** Against C7 as stated: with the cache server out of reach, the
    receiver run for a saved reservation does not return: the exception
    of [cache.delete_pattern] leaves it, uncaught, towards the sender of
    the signal. *)
Lemma cache_outage_raises_in_receiver :
  invalidate_cache (post_save true) sender.Reservation example_world_down
    = (Raise ConnectionInterrupted, example_world_down).
Proof. vm_compute. reflexivity. Qed.

(** C7, as the receiver has it.  [invalidate_cache] handles no exception:
    while the cache server is out of reach, the receiver run for a write
    of a watched kind raises [ConnectionInterrupted] to its caller, the
    sender of the signal, and changes nothing; only for a kind without a
    pattern does the receiver return normally. *)
Theorem invalidate_cache_propagates_failure
    (signal : Signal) (s : sender.t) (w : World) :
  connected (cache w) = false →
  (s ∈ watched →
     invalidate_cache signal s w = (Raise ConnectionInterrupted, w)) ∧
  (s ∉ watched → invalidate_cache signal s w = (Return tt, w)).
Proof.
  intros Hc. split.
  - intros [pattern Hp]%watched_pattern.
    rewrite (invalidate_cache_watched signal s pattern Hp).
    by apply delete_pattern_disconnected.
  - intros Hs. apply invalidate_cache_unwatched.
    destruct (CACHE_PATTERNS s) as [pattern|] eqn:Hp; [|done].
    destruct Hs. apply watched_pattern. by exists pattern.
Qed.

Lemma invalidate_cache_propagates_failure_witness :
  invalidate_cache post_delete sender.ShowTheme example_world_down
    = (Raise ConnectionInterrupted, example_world_down).
Proof.
  destruct (invalidate_cache_propagates_failure
              post_delete sender.ShowTheme example_world_down)
    as (Hraise & _).
  - reflexivity.
  - apply Hraise. apply list_elem_of_In. simpl. tauto.
Defined.

(** C10. The receiver does nothing for a [Ticket]: whatever the signal
    and whatever the state of the cache server, it returns normally and
    leaves the world as it was.  In particular the ticket inserts of a
    reservation leave every cache entry, the pages of the show-session
    view among them, in place. *)
Theorem invalidate_cache_ignores_Ticket :
  CACHE_PATTERNS sender.Ticket = None ∧
  (∀ signal w, invalidate_cache signal sender.Ticket w = (Return tt, w)) ∧
  (∀ signal n w, send_each signal sender.Ticket n w = (Return tt, w)) ∧
  (∀ pk reqs w, cache (insert_tickets pk reqs w).2 = cache w).
Proof.
  split; [done|]. split; [|split].
  - intros signal w. by apply invalidate_cache_unwatched.
  - apply send_each_Ticket.
  - intros pk reqs w. pose proof (insert_tickets_run pk reqs w) as Hrun.
    destruct (insert_tickets pk reqs w) as [[ts|e] w']; simpl.
    + by destruct Hrun as (_ & -> & _).
    + by destruct Hrun as (-> & _).
Qed.

(** ** Repeated reads of the availability *)

Lemma glob_star_any key : glob_match "*" key = true.
Proof. induction key as [|c key IH]; [done|]. exact IH. Qed.

(** Every page of the show-session view matches the pattern of
    [ShowSession]: the key embeds the [key_prefix] of the view. *)
Lemma show_session_page_matches url :
  glob_match "*show_session_view*" (page_key "show_session_view" url) = true.
Proof.
  unfold page_key. simpl. apply orb_true_intro. left.
  exact (glob_star_any url).
Qed.

(** A write of a [ShowSession] evicts the cached detail pages. *)
Lemma ShowSession_write_evicts_page signal pk w :
  connected (cache w) = true →
  entries (cache (invalidate_cache signal sender.ShowSession w).2)
    !! page_key "show_session_view" (show_session_url pk) = None.
Proof.
  intros Hc.
  rewrite (invalidate_cache_watched _ _ "*show_session_view*") by done.
  rewrite (delete_pattern_connected _ _ Hc). simpl.
  by rewrite evict_lookup, show_session_page_matches.
Qed.

(** Two reads in a row agree as long as the page that answered the
    first, or was stored by it, has not expired at the second. *)
Lemma dispatch_repeat now now' pk w :
  now <= now' →
  (∀ e, entries (cache (dispatch now pk w).2)
          !! page_key "show_session_view" (show_session_url pk) = Some e →
        now <= expires_at e → now' <= expires_at e) →
  (dispatch now' pk (dispatch now pk w).2).1 = (dispatch now pk w).1.
Proof.
  intros Hle. rewrite (dispatch_run now pk w). simpl.
  set (key := page_key "show_session_view" (show_session_url pk)).
  destruct (connected (cache w)) eqn:Hc.
  2:{ intros _. simpl. rewrite dispatch_run. simpl. by rewrite Hc. }
  destruct (entries (cache w) !! key) as [e|] eqn:He; simpl.
  - destruct (now <=? expires_at e) eqn:Hlt; simpl.
    + intros Hwin. rewrite dispatch_run. simpl. fold key. rewrite Hc, He. simpl.
      apply Z.leb_le in Hlt. specialize (Hwin e He Hlt).
      apply Z.leb_le in Hwin. by rewrite Hwin.
    + destruct (queryset (db w) !! pk) as [a|] eqn:Hq; simpl.
      * intros Hwin. rewrite dispatch_run. simpl. fold key.
        rewrite lookup_insert_eq. simpl.
        specialize (Hwin _ (lookup_insert_eq _ _ _)). simpl in Hwin.
        assert ((now' <=? now + 60 * 5) = true) as ->
          by (apply Z.leb_le; lia).
        done.
      * intros _. rewrite dispatch_run. simpl. fold key. rewrite Hc, He. simpl.
        assert ((now' <=? expires_at e) = false) as ->.
        { apply Z.leb_gt. apply Z.leb_gt in Hlt. lia. }
        by rewrite Hq.
  - destruct (queryset (db w) !! pk) as [a|] eqn:Hq; simpl.
    + intros Hwin. rewrite dispatch_run. simpl. fold key.
      rewrite lookup_insert_eq. simpl.
      specialize (Hwin _ (lookup_insert_eq _ _ _)). simpl in Hwin.
      assert ((now' <=? now + 60 * 5) = true) as -> by (apply Z.leb_le; lia).
      done.
    + intros _. rewrite dispatch_run. simpl. fold key. rewrite Hc, He. simpl.
      by rewrite Hq.
Qed.

(** A read through a cache that shows what the store holds returns the
    row of the store, and keeps the cache that way. *)
Lemma dispatch_coherent now pk w :
  coherent_at pk w → connected (cache w) = true →
  (dispatch now pk w).1 = Return (detail (db w) pk) ∧
  coherent_at pk (dispatch now pk w).2.
Proof.
  intros Hco Hc. rewrite dispatch_run. simpl. rewrite Hc.
  set (key := page_key "show_session_view" (show_session_url pk)).
  assert (∀ e, entries (cache w) !! key = Some e →
            value e = detail (db w) pk) as Hco' by exact Hco.
  assert (∀ a, queryset (db w) !! pk = Some a →
            detail (db w) pk = HTTP_200_OK (ShowSessionDetail a)) as Hsome
    by (intros a Ha; unfold detail; by rewrite Ha).
  assert (queryset (db w) !! pk = None →
            detail (db w) pk = HTTP_404_NOT_FOUND) as Hnone
    by (intros Ha; unfold detail; by rewrite Ha).
  assert (∀ a, coherent_at pk
            {| db := db w;
               cache :=
                 {| entries :=
                      <[key := {| value := HTTP_200_OK (ShowSessionDetail a);
                                  expires_at := now + 60 * 5 |}]>
                        (entries (cache w));
                    connected := true |} |} ↔
            detail (db w) pk = HTTP_200_OK (ShowSessionDetail a)) as Hins.
  { intros a. unfold coherent_at. simpl. fold key. rewrite lookup_insert_eq.
    split; [intros H; symmetry; by apply (H _ eq_refl)|].
    intros Hd e [= <-]. by symmetry. }
  destruct (entries (cache w) !! key ≫= _) as [response|] eqn:Hhit; simpl.
  - split; [|done].
    destruct (entries (cache w) !! key) as [e|] eqn:He; [|done].
    simpl in Hhit. destruct (now <=? expires_at e); [|done].
    injection Hhit as <-. f_equal. by apply Hco'.
  - destruct (queryset (db w) !! pk) as [a|] eqn:Hq; simpl.
    + split; [by rewrite (Hsome a)|]. apply Hins. by apply Hsome.
    + split; [by rewrite Hnone|done].
Qed.

Lemma dispatch_connected now pk w :
  connected (cache (dispatch now pk w).2) = connected (cache w).
Proof.
  rewrite dispatch_run. simpl.
  destruct (connected (cache w)) eqn:Hc; [|done].
  destruct (entries (cache w) !! _ ≫= _); [done|].
  by destruct (queryset (db w) !! pk).
Qed.

(** X11. Two reads in a row that share the cache entry of a session's
    page agree, at any two times, when the page held under that entry
    shows what the store holds. *)
Lemma dispatch_repeat_coherent now now' pk w :
  coherent_at pk w →
  (dispatch now' pk (dispatch now pk w).2).1 = (dispatch now pk w).1.
Proof.
  intros Hco. destruct (connected (cache w)) eqn:Hc.
  - destruct (dispatch_coherent now pk w Hco Hc) as [Hv Hco'].
    destruct (dispatch_coherent now' pk (dispatch now pk w).2 Hco') as [Hv' _].
    { by rewrite dispatch_connected. }
    by rewrite Hv', Hv, dispatch_db.
  - rewrite (dispatch_run now pk w). simpl. rewrite Hc. simpl.
    rewrite dispatch_run. simpl. by rewrite Hc.
Qed.

(** After the sale the page cached before it is stale. *)
Lemma example_world_stale_incoherent : ¬ coherent_at 1 example_world_stale.
Proof.
  intros Hco.
  specialize (Hco {| value := detail example_db 1; expires_at := 300 |}).
  vm_compute in Hco. specialize (Hco eq_refl). discriminate.
Qed.

(** C9, on the code.  Session [1] of the 10 x 10 dome is read at time
    [0] (100 seats, the page is cached for 300 seconds), one seat is
    reserved at time [10], and the session is read again at times [299]
    and [301].  No write lies between the last two reads, the store is
    the same at both, yet the first is answered from the page cached
    before the sale (100 seats) and the second from the store (99
    seats). *)
Theorem stale_page_breaks_repeated_read :
  availability (dispatch 0 1 example_world).1 = Some 100 ∧
  (∃ p, (createReservation 7 10 [mkRequest 5 5 1] example_world_read).1
          = Return p) ∧
  tickets_available <$> queryset (db example_world_stale) !! 1 = Some 99 ∧
  availability (dispatch 299 1 example_world_stale).1 = Some 100 ∧
  db example_world_reread = db example_world_stale ∧
  availability (dispatch 301 1 example_world_reread).1 = Some 99.
Proof.
  split; [vm_compute; reflexivity|].
  split; [eexists; vm_compute; reflexivity|].
  split; [vm_compute; reflexivity|].
  split; [vm_compute; reflexivity|].
  split; [apply dispatch_db|].
  vm_compute; reflexivity.
Qed.

(** ** [_params_to_ints] *)

Lemma split_nonempty s : split s ≠ [].
Proof.
  destruct s as [|c s]; [done|]. simpl.
  destruct (Ascii.eqb c ","); [done|]. by destruct (split s).
Qed.

Lemma split_app_comma a b : split (a +:+ "," +:+ b) = split a ++ split b.
Proof.
  induction a as [|c a IH]; [done|].
  simpl. rewrite IH. destruct (Ascii.eqb c ","); [done|].
  pose proof (split_nonempty a). by destruct (split a).
Qed.

Lemma split_no_comma s :
  all_chars (λ c, negb (Ascii.eqb c ",")) s = true → split s = [s].
Proof.
  induction s as [|c s IH]; [done|]. simpl.
  intros [Hc Hs]%andb_true_iff. rewrite (IH Hs).
  by destruct (Ascii.eqb c ",").
Qed.

Lemma mapM_app_option {A B} (f : A → option B) (l1 l2 : list A) :
  mapM f (l1 ++ l2) = k1 ← mapM f l1; k2 ← mapM f l2; Some (k1 ++ k2).
Proof.
  induction l1 as [|x l1 IH]; simpl.
  - by destruct (mapM f l2).
  - destruct (f x) as [y|]; [|done]. simpl. rewrite IH.
    destruct (mapM f l1) as [k1|]; [|done]. simpl.
    by destruct (mapM f l2).
Qed.

Lemma params_to_ints_app_comma a b :
  _params_to_ints (a +:+ "," +:+ b) =
  ids_a ← _params_to_ints a; ids_b ← _params_to_ints b; Some (ids_a ++ ids_b).
Proof.
  unfold _params_to_ints.
  by rewrite split_app_comma, filter_app, mapM_app_option.
Qed.

Lemma all_chars_impl (p q : ascii → bool) s :
  (∀ c, p c = true → q c = true) →
  all_chars p s = true → all_chars q s = true.
Proof.
  intros Hpq. induction s as [|c s IH]; [done|]. simpl.
  intros [Hc Hs]%andb_true_iff. by rewrite (Hpq c Hc), (IH Hs).
Qed.

Lemma is_decimal_spec c :
  is_decimal c = true ↔ (48 <= nat_of_ascii c <= 57)%nat.
Proof.
  unfold is_decimal. by rewrite andb_true_iff, !Nat.leb_le.
Qed.

Lemma is_decimal_not_comma c :
  is_decimal c = true → negb (Ascii.eqb c ",") = true.
Proof.
  intros Hc%is_decimal_spec. apply negb_true_iff, Ascii.eqb_neq.
  intros ->. assert (nat_of_ascii "," = 44%nat) as E by reflexivity.
  rewrite E in Hc. lia.
Qed.

Lemma is_decimal_pretty_N_char x : is_decimal (pretty_N_char x) = true.
Proof. unfold pretty_N_char. by repeat case_match. Qed.

Lemma digit_value_pretty_N_char x :
  (x < 10)%N → digit_value (pretty_N_char x) = Z.of_N x.
Proof.
  intros Hx.
  assert (x = 0 ∨ x = 1 ∨ x = 2 ∨ x = 3 ∨ x = 4 ∨ x = 5 ∨ x = 6 ∨ x = 7
          ∨ x = 8 ∨ x = 9)%N as Hcases by lia.
  repeat destruct Hcases as [->|Hcases]; try subst x; reflexivity.
Qed.

Lemma pretty_N_go_decimal x : ∀ s,
  all_chars is_decimal s = true →
  all_chars is_decimal (pretty_N_go x s) = true.
Proof.
  induction (N.lt_wf_0 x) as [x _ IH]; intros s Hs.
  assert (x = 0 ∨ 0 < x)%N as [->|Hx] by lia; [done|].
  rewrite pretty_N_go_step by done. apply IH; [by apply N.div_lt|].
  simpl. by rewrite is_decimal_pretty_N_char.
Qed.

Lemma int_go_pretty_N_go x : ∀ s,
  int_go 0 (pretty_N_go x s) = int_go (Z.of_N x) s.
Proof.
  induction (N.lt_wf_0 x) as [x _ IH]; intros s.
  assert (x = 0 ∨ 0 < x)%N as [->|Hx] by lia; [done|].
  rewrite pretty_N_go_step by done. rewrite IH by (by apply N.div_lt).
  simpl. rewrite is_decimal_pretty_N_char.
  rewrite digit_value_pretty_N_char by (apply N.mod_lt; lia).
  f_equal. rewrite N2Z.inj_div, N2Z.inj_mod. simpl.
  pose proof (Z.div_mod (Z.of_N x) 10). lia.
Qed.

Lemma pretty_nonneg_decimal (n : Z) :
  0 <= n →
  truthy (pretty n) = true ∧ all_chars is_decimal (pretty n) = true ∧
  int_go 0 (pretty n) = Some n.
Proof.
  intros Hn. destruct n as [|p|p]; [done| |lia].
  unfold pretty, pretty_Z, pretty, pretty_positive, pretty, pretty_N.
  rewrite decide_False by done.
  split; [|split].
  - rewrite pretty_N_go_step by done.
    generalize (pretty_N_char (N.pos p `mod` 10)). intros c.
    assert (∀ x s, truthy s = true → truthy (pretty_N_go x s) = true) as Hgo.
    { intros x. induction (N.lt_wf_0 x) as [x _ IH]; intros s Hs.
      assert (x = 0 ∨ 0 < x)%N as [->|Hx] by lia; [done|].
      rewrite pretty_N_go_step by done. apply IH; [by apply N.div_lt|done]. }
    by apply Hgo.
  - by apply pretty_N_go_decimal.
  - by rewrite int_go_pretty_N_go.
Qed.

Lemma params_to_ints_pretty (n : Z) :
  0 <= n → (String.length (pretty n) <= max_str_digits)%nat →
  _params_to_ints (pretty n) = Some [n].
Proof.
  intros Hn Hlen. destruct (pretty_nonneg_decimal n Hn) as (Ht & Hd & Hi).
  unfold _params_to_ints. rewrite split_no_comma.
  2:{ eapply all_chars_impl; [apply is_decimal_not_comma|done]. }
  assert (isdigit (pretty n) = true) as Hdig.
  { unfold isdigit. rewrite Ht. simpl.
    eapply all_chars_impl; [|exact Hd]. intros c ->. done. }
  rewrite filter_cons, decide_True by done. rewrite filter_nil. simpl.
  unfold int. apply Nat.ltb_ge in Hlen. rewrite Hlen, Hi. done.
Qed.

(** X1. Round trip of the id list: the decimal renderings of
    non-negative ids (each within the digit limit of [int]), joined by
    commas as a client writes [?show_theme=2,5], are read back as that
    list, in order; the empty list is read back from the empty
    string. *)
Theorem params_to_ints_join (ids : list Z) :
  Forall (λ n, 0 <= n ∧ (String.length (pretty n) <= max_str_digits)%nat)
         ids →
  _params_to_ints (join (pretty <$> ids)) = Some ids.
Proof.
  induction ids as [|n ids IH]; intros Hall; [done|].
  inversion Hall as [|? ? [Hn Hlen] Hrest]; subst.
  destruct ids as [|m ids'].
  - simpl. by apply params_to_ints_pretty.
  - change (join (pretty <$> n :: m :: ids'))
      with (pretty n +:+ "," +:+ join (pretty <$> m :: ids')).
    rewrite params_to_ints_app_comma, params_to_ints_pretty by done.
    rewrite (IH Hrest). reflexivity.
Qed.

Lemma params_to_ints_join_witness :
  _params_to_ints (join (pretty <$> [2; 5; 0; 12])) = Some [2; 5; 0; 12].
Proof.
  apply (params_to_ints_join [2; 5; 0; 12]).
  repeat (constructor; [split; [lia | apply Nat.leb_le; reflexivity]|]).
  constructor.
Defined.

Lemma params_to_ints_piece piece :
  all_chars (λ c, negb (Ascii.eqb c ",")) piece = true →
  _params_to_ints piece =
  if isdigit piece then n ← int piece; Some [n] else Some [].
Proof.
  intros Hp. unfold _params_to_ints. rewrite (split_no_comma _ Hp).
  rewrite filter_cons, filter_nil.
  destruct (isdigit piece) eqn:Hd.
  - rewrite decide_True by done. simpl. by destruct (int piece).
  - rewrite decide_False by congruence. done.
Qed.

(** X2. How the parser composes: the ids of [a,b] are the ids of [a]
    followed by the ids of [b] (a [ValueError] of either part is one of
    the whole), and a piece without commas gives its number when it is
    all digits and nothing otherwise, so that empty pieces, signs,
    blanks and letters are skipped without an error. *)
Theorem params_to_ints_compose (a b piece : string) :
  all_chars (λ c, negb (Ascii.eqb c ",")) piece = true →
  _params_to_ints (a +:+ "," +:+ b)
    = (ids_a ← _params_to_ints a; ids_b ← _params_to_ints b;
       Some (ids_a ++ ids_b)) ∧
  _params_to_ints piece
    = (if isdigit piece then n ← int piece; Some [n] else Some []) ∧
  (isdigit piece = false →
   _params_to_ints (a +:+ "," +:+ piece +:+ "," +:+ b)
     = _params_to_ints (a +:+ "," +:+ b)).
Proof.
  intros Hp. split; [apply params_to_ints_app_comma|].
  split; [by apply params_to_ints_piece|].
  intros Hd. rewrite !params_to_ints_app_comma.
  rewrite (params_to_ints_piece piece Hp), Hd.
  destruct (_params_to_ints a); [|done]. simpl.
  by destruct (_params_to_ints b).
Qed.

Lemma params_to_ints_compose_witness :
  _params_to_ints ("2,x" +:+ "," +:+ "-3" +:+ "," +:+ "5")
    = _params_to_ints ("2,x" +:+ "," +:+ "5").
Proof.
  apply (params_to_ints_compose "2,x" "5" "-3"); reflexivity.
Defined.

Lemma split_pieces (P : ascii → bool) s :
  all_chars P s = true →
  Forall (λ piece, all_chars P piece = true ∧
                   (String.length piece <= String.length s)%nat) (split s).
Proof.
  induction s as [|c s IH]; intros Hs.
  - repeat constructor.
  - simpl in Hs. apply andb_true_iff in Hs as [Hc Hs].
    specialize (IH Hs). simpl.
    destruct (Ascii.eqb c ",").
    + constructor; [split; [done|simpl; lia]|].
      eapply Forall_impl; [exact IH|]. simpl. intros p [? ?]. split; [done|lia].
    + pose proof (split_nonempty s) as Hne.
      destruct (split s) as [|p ps]; [done|].
      inversion IH as [|? ? [Hp Hl] Hps]; subst.
      constructor.
      * simpl. rewrite Hc, Hp. split; [done|lia].
      * eapply Forall_impl; [exact Hps|]. simpl. intros q [? ?].
        split; [done|lia].
Qed.

Lemma ascii_digit_decimal c :
  (nat_of_ascii c <? 128)%nat = true →
  is_decimal c || is_superscript c = true → is_decimal c = true.
Proof.
  intros Hc%Nat.ltb_lt [Hd|Hs]%orb_true_iff; [done|].
  unfold is_superscript in Hs.
  rewrite !orb_true_iff, !Nat.eqb_eq in Hs. lia.
Qed.

Lemma digit_value_nonneg c : is_decimal c = true → 0 <= digit_value c.
Proof. intros Hc%is_decimal_spec. unfold digit_value. lia. Qed.

Lemma int_go_decimal s : ∀ acc,
  0 <= acc → all_chars is_decimal s = true →
  ∃ n, int_go acc s = Some n ∧ 0 <= n.
Proof.
  induction s as [|c s IH]; intros acc Hacc Hs; [by exists acc|].
  simpl in *. apply andb_true_iff in Hs as [Hc Hs]. rewrite Hc.
  apply IH; [|done]. pose proof (digit_value_nonneg c Hc). lia.
Qed.

(** X3. On a query string of ASCII characters no longer than the digit
    limit of [int] the parser raises nothing: it returns a list of
    non-negative ids, at most one per comma-separated piece. *)
Theorem params_to_ints_ascii (qs : string) :
  all_chars (λ c, (nat_of_ascii c <? 128)%nat) qs = true →
  (String.length qs <= max_str_digits)%nat →
  ∃ ids, _params_to_ints qs = Some ids ∧
         Forall (λ n, 0 <= n) ids ∧
         (length ids <= length (split qs))%nat.
Proof.
  intros Hascii Hlen. unfold _params_to_ints.
  pose proof (split_pieces _ qs Hascii) as Hpieces.
  assert (Forall (λ piece, ∃ n, int piece = Some n ∧ 0 <= n)
            (filter (λ str_id, isdigit str_id = true) (split qs))) as Hint.
  { apply Forall_forall. intros piece [Hd Hin]%list_elem_of_filter.
    rewrite Forall_forall in Hpieces.
    destruct (Hpieces piece Hin) as [Hp Hl].
    unfold int. replace (max_str_digits <? String.length piece)%nat
      with false by (symmetry; apply Nat.ltb_ge; lia).
    apply int_go_decimal; [done|].
    unfold isdigit in Hd. apply andb_true_iff in Hd as [_ Hd].
    clear -Hp Hd. induction piece as [|c piece IH]; [done|].
    simpl in *. apply andb_true_iff in Hp as [Hc Hp].
    apply andb_true_iff in Hd as [Hdc Hd].
    by rewrite (ascii_digit_decimal c Hc Hdc), IH. }
  destruct (mapM int (filter (λ str_id, isdigit str_id = true) (split qs)))
    as [ids|] eqn:Hm.
  - exists ids. split; [done|]. split.
    + apply mapM_Some_1 in Hm. clear -Hm Hint.
      induction Hm as [|piece n pieces ids Hn _ IH]; [constructor|].
      inversion Hint as [|? ? (n' & Hn' & Hpos) Hrest]; subst.
      constructor; [congruence | by apply IH].
    + apply length_mapM in Hm. rewrite <- Hm. apply length_filter.
  - apply mapM_None_1 in Hm. apply Exists_exists in Hm as (piece & Hin & Hnone).
    rewrite Forall_forall in Hint.
    destruct (Hint piece Hin) as (n & Hn & _). congruence.
Qed.

Lemma params_to_ints_ascii_witness :
  ∃ ids, _params_to_ints "2,abc,,5,-3, 7,007" = Some ids ∧
         Forall (λ n, 0 <= n) ids ∧
         (length ids <= length (split "2,abc,,5,-3, 7,007"))%nat.
Proof.
  apply (params_to_ints_ascii "2,abc,,5,-3, 7,007").
  - reflexivity.
  - apply Nat.leb_le. reflexivity.
Defined.

(** ** [AstronomyShowViewSet.get_queryset] *)

Section AstronomyShowViewSet_get_queryset.

Variable icontains : string → string → bool.

Lemma elem_of_filter_show_theme c ids rows row :
  row ∈ AstronomyShowViewSet.filter_show_theme c ids rows ↔
  row ∈ rows ∧ ∃ theme, theme ∈ ids ∧ (row.1, theme) ∈ show_theme c.
Proof.
  unfold AstronomyShowViewSet.filter_show_theme.
  rewrite list_elem_of_bind. split.
  - intros (row' & Hrow & Hin).
    apply list_elem_of_bind in Hrow as (link & Hrow & Hlink).
    apply list_elem_of_singleton in Hrow as ->.
    apply list_elem_of_filter in Hlink as [[H1 H2] Hlink].
    split; [done|]. exists link.2. split; [done|].
    rewrite <- H1. by destruct link.
  - intros (Hin & theme & Hid & Hlink). exists row. split; [|done].
    apply list_elem_of_bind. exists (row.1, theme).
    split; [by apply list_elem_of_singleton|].
    apply list_elem_of_filter. done.
Qed.

(** X4. What [get_queryset] returns, when it returns: every show at most
    once, and exactly the shows of the catalogue whose title contains
    the [title] parameter (if one is given) and that have a theme among
    the ids of the [show_theme] parameter (if one is given). *)
Theorem astronomy_show_get_queryset_spec
    (c : Catalogue) (title_param show_theme_param : option string)
    (rows : list (Z * AstronomyShow)) :
  AstronomyShowViewSet.get_queryset icontains c title_param show_theme_param
    = Some rows →
  NoDup rows ∧
  ∀ row, row ∈ rows ↔
    row ∈ astronomy_shows c ∧
    (given title_param = true →
       icontains (title row.2) (default "" title_param) = true) ∧
    (given show_theme_param = true →
       ∃ ids theme,
         _params_to_ints (default "" show_theme_param) = Some ids ∧
         theme ∈ ids ∧ (row.1, theme) ∈ show_theme c).
Proof.
  unfold AstronomyShowViewSet.get_queryset. intros Hq.
  set (titled :=
         if given title_param
         then filter (λ row, icontains (title row.2) (default "" title_param)
                             = true) (astronomy_shows c)
         else astronomy_shows c) in Hq.
  assert (∀ row, row ∈ titled ↔
            row ∈ astronomy_shows c ∧
            (given title_param = true →
               icontains (title row.2) (default "" title_param) = true))
    as Htitled.
  { intros row. subst titled. destruct (given title_param).
    - rewrite list_elem_of_filter. tauto.
    - split; [intros ?; split; [done|discriminate] | tauto]. }
  destruct (given show_theme_param) eqn:Hgiven.
  - destruct (_params_to_ints (default "" show_theme_param)) as [ids|]
      eqn:Hids; [|discriminate].
    simpl in Hq. injection Hq as <-. split; [apply NoDup_remove_dups|].
    intros row. rewrite elem_of_remove_dups, elem_of_filter_show_theme, Htitled.
    split.
    + intros [[Hin Ht] (theme & Hid & Hlink)]. split; [done|].
      split; [done|]. intros _. by exists ids, theme.
    + intros (Hin & Ht & Hth). split; [done|].
      destruct (Hth eq_refl) as (ids' & theme & Hids' & Hid & Hlink).
      exists theme. split; [congruence|done].
  - simpl in Hq. injection Hq as <-. split; [apply NoDup_remove_dups|].
    intros row. rewrite elem_of_remove_dups, Htitled.
    split; [intros [? ?]; split; [done|]; split; [done|discriminate] | tauto].
Qed.

(** X5. The edges of the query parameters.  A [show_theme] parameter in
    which no piece is a number selects no show at all (it does not fall
    back to the unfiltered list); a [ValueError] of the id parser is one
    of [get_queryset]; and parameters that are absent or empty filter
    nothing, so that a catalogue without duplicate rows is returned as
    it is. *)
Theorem astronomy_show_get_queryset_edges
    (c : Catalogue) (title_param show_theme_param : option string) :
  (given show_theme_param = true →
   _params_to_ints (default "" show_theme_param) = Some [] →
     AstronomyShowViewSet.get_queryset icontains c title_param
       show_theme_param = Some []) ∧
  (given show_theme_param = true →
   _params_to_ints (default "" show_theme_param) = None →
     AstronomyShowViewSet.get_queryset icontains c title_param
       show_theme_param = None) ∧
  (given title_param = false → given show_theme_param = false →
   NoDup (astronomy_shows c) →
     AstronomyShowViewSet.get_queryset icontains c title_param
       show_theme_param = Some (astronomy_shows c)).
Proof.
  unfold AstronomyShowViewSet.get_queryset.
  split; [|split].
  - intros Hgiven Hids. rewrite Hgiven, Hids. simpl.
    match goal with
    | |- Some (remove_dups (AstronomyShowViewSet.filter_show_theme c [] ?rs))
         = _ =>
        assert (AstronomyShowViewSet.filter_show_theme c [] rs = []) as ->;
          [|done]
    end.
    apply elem_of_nil_inv.
    intros row [_ (theme & Hid & _)]%elem_of_filter_show_theme.
    by apply elem_of_nil in Hid.
  - intros Hgiven Hids. by rewrite Hgiven, Hids.
  - intros -> -> Hnd. simpl. f_equal.
    clear -Hnd. induction Hnd as [|row rows Hnotin Hnd IH]; [done|].
    simpl. destruct (decide_rel elem_of row rows) as [Hin|_]; [done|].
    by rewrite IH.
Qed.

End AstronomyShowViewSet_get_queryset.

Lemma astronomy_show_get_queryset_spec_witness :
  NoDup [(1, mkShow "Astronomy Show 1" "Sample description");
         (2, mkShow "Astronomy Show 2" "Sample description")] ∧
  ((3, mkShow "Astronomy Show without show theme" "Sample description")
     ∈ [(1, mkShow "Astronomy Show 1" "Sample description");
        (2, mkShow "Astronomy Show 2" "Sample description")] ↔
   (3, mkShow "Astronomy Show without show theme" "Sample description")
     ∈ astronomy_shows themes_catalogue ∧
   (given None = true →
      icontains_ascii "Astronomy Show without show theme" "" = true) ∧
   (given (Some "1,2") = true →
      ∃ ids theme,
        _params_to_ints "1,2" = Some ids ∧
        theme ∈ ids ∧ (3, theme) ∈ show_theme themes_catalogue)).
Proof.
  destruct (astronomy_show_get_queryset_spec icontains_ascii
              themes_catalogue None (Some "1,2")
              [(1, mkShow "Astronomy Show 1" "Sample description");
               (2, mkShow "Astronomy Show 2" "Sample description")])
    as [Hnd Hrows]; [reflexivity|].
  split; [exact Hnd|].
  exact (Hrows (3, mkShow "Astronomy Show without show theme"
                          "Sample description")).
Defined.

Lemma astronomy_show_get_queryset_edges_witness :
  AstronomyShowViewSet.get_queryset icontains_ascii themes_catalogue
    None (Some "abc, -1") = Some [] ∧
  AstronomyShowViewSet.get_queryset icontains_ascii themes_catalogue
    (Some "") None = Some (astronomy_shows themes_catalogue).
Proof.
  split.
  - apply (astronomy_show_get_queryset_edges icontains_ascii
             themes_catalogue None (Some "abc, -1")); reflexivity.
  - apply (astronomy_show_get_queryset_edges icontains_ascii
             themes_catalogue (Some "") None); [reflexivity..|].
    repeat constructor; rewrite ?list_elem_of_In; simpl; intuition congruence.
Defined.

(** The tests of [test_api.py] on the filters: themes [1] and [2] select
    the first two shows and not the third; the title "astronomy show"
    selects "Astronomy Show" and "Another Astronomy Show" and not
    "No match". *)
Example test_filter_astronomy_shows_by_show_themes :
  AstronomyShowViewSet.get_queryset icontains_ascii themes_catalogue
    None (Some "1,2")
  = Some [(1, mkShow "Astronomy Show 1" "Sample description");
          (2, mkShow "Astronomy Show 2" "Sample description")].
Proof. reflexivity. Qed.

Example test_filter_astronomy_show_by_title :
  AstronomyShowViewSet.get_queryset icontains_ascii titles_catalogue
    (Some "astronomy show") None
  = Some [(1, mkShow "Astronomy Show" "Sample description");
          (2, mkShow "Another Astronomy Show" "Sample description")].
Proof. reflexivity. Qed.

(** ** The page cache and the signals together *)

Lemma all_chars_app (p : ascii → bool) s t :
  all_chars p (s +:+ t) = all_chars p s && all_chars p t.
Proof.
  induction s as [|c s IH]; [done|]. simpl. by rewrite IH, andb_assoc.
Qed.

Lemma pretty_N_go_chars (p : ascii → bool) x :
  (∀ c, is_decimal c = true → p c = true) →
  ∀ s, all_chars p s = true → all_chars p (pretty_N_go x s) = true.
Proof.
  intros Hp. induction (N.lt_wf_0 x) as [x _ IH]; intros s Hs.
  assert (x = 0 ∨ 0 < x)%N as [->|Hx] by lia; [done|].
  rewrite pretty_N_go_step by done. apply IH; [by apply N.div_lt|].
  simpl. by rewrite (Hp _ (is_decimal_pretty_N_char _)).
Qed.

(** The decimal rendering of a primary key holds digits and at most a
    sign. *)
Lemma pretty_Z_chars (p : ascii → bool) (pk : Z) :
  (∀ c, is_decimal c = true → p c = true) → p "-"%char = true →
  all_chars p (pretty pk) = true.
Proof.
  intros Hp Hdash.
  assert (∀ x : positive, all_chars p (pretty x) = true) as Hpos.
  { intros x. unfold pretty, pretty_positive, pretty, pretty_N.
    rewrite decide_False by done. by apply pretty_N_go_chars. }
  destruct pk as [|x|x].
  - simpl. by rewrite (Hp "0"%char).
  - apply Hpos.
  - change (p "-"%char && all_chars p (pretty x) = true).
    by rewrite Hdash, Hpos.
Qed.

Lemma glob_literal_star (lit key : string) :
  all_chars (λ c, negb (Ascii.eqb c "*")) lit = true →
  glob_match (lit +:+ "*") key = starts_with key lit.
Proof.
  revert key. induction lit as [|c lit IH]; intros key Hlit.
  - rewrite glob_star_any. by destruct key.
  - simpl in Hlit. apply andb_true_iff in Hlit as [Hc Hlit].
    apply negb_true_iff in Hc. simpl. rewrite Hc.
    destruct key as [|k key]; [done|]. by rewrite IH.
Qed.

(** A pattern [*lit*] with a literal [lit] matches the keys that contain
    [lit]. *)
Lemma glob_contains (lit key : string) :
  all_chars (λ c, negb (Ascii.eqb c "*")) lit = true →
  glob_match (String "*" (lit +:+ "*")) key = contains key lit.
Proof.
  intros Hlit.
  assert (∀ p key, glob_match (String "*" p) key =
            glob_match p key ||
            match key with
            | EmptyString => false
            | String _ key' => glob_match (String "*" p) key'
            end) as Hglob by (by intros p []).
  assert (∀ key, contains key lit =
            starts_with key lit ||
            match key with
            | EmptyString => false
            | String _ key' => contains key' lit
            end) as Hcontains by (by intros []).
  induction key as [|k key IH];
    rewrite Hglob, Hcontains, glob_literal_star by done; [done|].
  by rewrite IH.
Qed.

Lemma contains_first_absent (c : ascii) (lit key : string) :
  all_chars (λ k, negb (Ascii.eqb c k)) key = true →
  contains key (String c lit) = false.
Proof.
  induction key as [|k key IH]; intros Hkey; [done|].
  simpl in Hkey. apply andb_true_iff in Hkey as [Hk Hkey].
  apply negb_true_iff in Hk.
  change (Ascii.eqb c k && starts_with key lit || contains key (String c lit)
          = false).
  by rewrite Hk, (IH Hkey).
Qed.

Lemma show_session_url_tail (c : ascii) (pk : Z) :
  (∀ k, is_decimal k = true → negb (Ascii.eqb c k) = true) →
  negb (Ascii.eqb c "-") = true → negb (Ascii.eqb c "/") = true →
  all_chars (λ k, negb (Ascii.eqb c k)) (pretty pk +:+ "/") = true.
Proof.
  intros Hd Hdash Hslash. rewrite all_chars_app.
  rewrite (pretty_Z_chars _ pk Hd Hdash). simpl. by rewrite Hslash.
Qed.

Lemma not_decimal_char (c : ascii) :
  is_decimal c = false →
  ∀ k, is_decimal k = true → negb (Ascii.eqb c k) = true.
Proof.
  intros Hc k Hk. apply negb_true_iff, Ascii.eqb_neq. congruence.
Qed.

(** No pattern of another kind matches the key of a show-session detail
    page. *)
Lemma show_session_page_other_patterns (s : sender.t) pattern (pk : Z) :
  s ≠ sender.ShowSession → CACHE_PATTERNS s = Some pattern →
  glob_match pattern (page_key "show_session_view" (show_session_url pk))
    = false.
Proof.
  intros Hs Hp.
  destruct s; simpl in Hp; try discriminate; try done;
    injection Hp as <-.
  - rewrite (glob_contains "show_theme_view") by done.
    change (contains (pretty pk +:+ "/") "show_theme_view" = false).
    apply contains_first_absent.
    by apply show_session_url_tail; [apply not_decimal_char|..].
  - rewrite (glob_contains "planetarium_dome_view") by done.
    change (contains (pretty pk +:+ "/") "planetarium_dome_view" = false).
    apply contains_first_absent.
    by apply show_session_url_tail; [apply not_decimal_char|..].
  - rewrite (glob_contains "astronomy_show_view") by done.
    change (contains (pretty pk +:+ "/") "astronomy_show_view" = false).
    apply contains_first_absent.
    by apply show_session_url_tail; [apply not_decimal_char|..].
  - rewrite (glob_contains "reservation_view") by done.
    change (contains (pretty pk +:+ "/") "reservation_view" = false).
    apply contains_first_absent.
    by apply show_session_url_tail; [apply not_decimal_char|..].
Qed.

Lemma save_show_session_run pk s w :
  connected (cache w) = true →
  save_show_session pk s w =
  (Return tt,
   {| db := set_show_sessions (<[pk := s]> (show_sessions (db w))) (db w);
      cache := {| entries := evict "*show_session_view*" (entries (cache w));
                  connected := true |} |}).
Proof.
  intros Hc. unfold save_show_session. rewrite bind_run. unfold get_db.
  rewrite bind_run. unfold modify_db, send.
  rewrite (invalidate_cache_watched _ _ "*show_session_view*") by done.
  by rewrite delete_pattern_connected.
Qed.

Lemma view_page_matches (s : sender.t) prefix pattern url :
  key_prefix s = Some prefix → CACHE_PATTERNS s = Some pattern →
  glob_match pattern (page_key prefix url) = true.
Proof.
  intros Hk Hp.
  destruct s; simpl in Hk, Hp; try discriminate;
    injection Hk as <-; injection Hp as <-.
  - by rewrite (glob_contains "show_theme_view").
  - by rewrite (glob_contains "planetarium_dome_view").
  - by rewrite (glob_contains "astronomy_show_view").
  - by rewrite (glob_contains "show_session_view").
Qed.

(** X6. The pattern of a kind and the [key_prefix] of its view fit: for
    the four views with a constant prefix, a create, update or delete of
    an instance of the kind, with the cache server answering, leaves no
    cached page of that view, whatever its URL. *)
Theorem write_evicts_every_page_of_its_view
    (signal : Signal) (s : sender.t) (prefix url : string) (w : World) :
  key_prefix s = Some prefix → connected (cache w) = true →
  (invalidate_cache signal s w).1 = Return tt ∧
  entries (cache (invalidate_cache signal s w).2) !! page_key prefix url
    = None.
Proof.
  intros Hk Hc.
  assert (∃ pattern, CACHE_PATTERNS s = Some pattern) as [pattern Hp]
    by (destruct s; simpl in *; try discriminate; eauto).
  rewrite (invalidate_cache_watched signal s pattern Hp).
  rewrite (delete_pattern_connected _ _ Hc). simpl. split; [done|].
  by rewrite evict_lookup, (view_page_matches s prefix pattern url).
Qed.

Lemma write_evicts_every_page_of_its_view_witness :
  (invalidate_cache (post_save false) sender.ShowTheme
     example_world_cached).1 = Return tt ∧
  entries (cache (invalidate_cache (post_save false) sender.ShowTheme
                    example_world_cached).2)
    !! page_key "show_theme_view" "/api/planetarium/show_themes/" = None.
Proof.
  apply (write_evicts_every_page_of_its_view (post_save false)
           sender.ShowTheme "show_theme_view"
           "/api/planetarium/show_themes/" example_world_cached);
    vm_compute; reflexivity.
Defined.

Lemma invalidate_cache_keeps_session_page signal s pk w :
  s ≠ sender.ShowSession →
  entries (cache (invalidate_cache signal s w).2)
    !! page_key "show_session_view" (show_session_url pk)
  = entries (cache w) !! page_key "show_session_view" (show_session_url pk).
Proof.
  intros Hs. unfold invalidate_cache.
  destruct (CACHE_PATTERNS s) as [pattern|] eqn:Hp; [|done].
  rewrite (pattern_truthy _ _ Hp). unfold delete_pattern.
  destruct (connected (cache w)); [|done]. simpl.
  by rewrite evict_lookup, (show_session_page_other_patterns s pattern pk).
Qed.

(** X7. Only a [ShowSession] write reaches the cached detail pages of
    the sessions: a signal of any other sender, a [Reservation], a
    [Ticket] or a [PlanetariumDome] among them, leaves the cached page
    of every session in place; in particular a dome write, which changes
    the capacity every session of the dome reports, leaves their cached
    pages as they were. *)
Theorem only_show_session_writes_evict_session_pages
    (signal : Signal) (s : sender.t) (pk : Z) (w : World) :
  s ≠ sender.ShowSession →
  entries (cache (invalidate_cache signal s w).2)
    !! page_key "show_session_view" (show_session_url pk)
  = entries (cache w) !! page_key "show_session_view" (show_session_url pk)
  ∧
  ∀ dome_pk dome,
    entries (cache (save_planetarium_dome dome_pk dome w).2)
      !! page_key "show_session_view" (show_session_url pk)
    = entries (cache w) !! page_key "show_session_view" (show_session_url pk).
Proof.
  intros Hs. split; [by apply invalidate_cache_keeps_session_page|].
  intros dome_pk dome. unfold save_planetarium_dome.
  rewrite bind_run. unfold get_db. rewrite bind_run. unfold modify_db, send.
  by rewrite invalidate_cache_keeps_session_page.
Qed.

Lemma only_show_session_writes_evict_session_pages_witness :
  entries (cache (invalidate_cache (post_save true) sender.Reservation
                    example_world_cached).2)
    !! page_key "show_session_view" (show_session_url 1)
  = entries (cache example_world_cached)
      !! page_key "show_session_view" (show_session_url 1).
Proof.
  destruct (only_show_session_writes_evict_session_pages
              (post_save true) sender.Reservation 1 example_world_cached)
    as [Hkept _]; [discriminate|].
  exact Hkept.
Defined.

(** X8. A write of a show session makes every session read fresh: with
    the cache server answering, the first GET of any session after the
    write is answered from the store as the write left it. *)
Theorem session_write_then_read_is_fresh
    (pk : Z) (s : ShowSession) (now read_pk : Z) (w : World) :
  connected (cache w) = true →
  (dispatch now read_pk (save_show_session pk s w).2).1
    = Return (detail (db (save_show_session pk s w).2) read_pk).
Proof.
  intros Hc. rewrite (save_show_session_run pk s w Hc). simpl.
  rewrite dispatch_run. simpl.
  rewrite evict_lookup, show_session_page_matches. simpl.
  unfold detail. simpl.
  by destruct (queryset _ !! read_pk).
Qed.

Lemma session_write_then_read_is_fresh_witness :
  (dispatch 400 1 (save_show_session 1 (mkSession 1 1 7200)
                     example_world_stale).2).1
    = Return (detail (db (save_show_session 1 (mkSession 1 1 7200)
                            example_world_stale).2) 1).
Proof.
  apply (session_write_then_read_is_fresh 1 (mkSession 1 1 7200) 400 1
           example_world_stale).
  vm_compute. reflexivity.
Defined.

(** X9. The lifetime of a cached page.  When a GET of a session finds no
    live page and the session exists, the response is stored, and from
    then on, as long as nothing evicts it, every GET that shares that
    cache entry up to and including 300 seconds later returns that very
    response and touches nothing, whatever has been written to the store
    in between; once more than 300 seconds have passed the response is
    computed from the store again. *)
Theorem cached_page_lives_300_seconds
    (now pk : Z) (w : World) (a : AnnotatedShowSession) :
  connected (cache w) = true →
  (e ← entries (cache w) !! page_key "show_session_view" (show_session_url pk);
   if now <=? expires_at e then Some (value e) else None) = None →
  queryset (db w) !! pk = Some a →
  (dispatch now pk w).1 = Return (HTTP_200_OK (ShowSessionDetail a)) ∧
  ∀ (d' : Database) (later : Z),
    (later <= now + 300 →
       dispatch later pk {| db := d'; cache := cache (dispatch now pk w).2 |}
       = (Return (HTTP_200_OK (ShowSessionDetail a)),
          {| db := d'; cache := cache (dispatch now pk w).2 |})) ∧
    (now + 300 < later →
       (dispatch later pk
          {| db := d'; cache := cache (dispatch now pk w).2 |}).1
       = Return (detail d' pk)).
Proof.
  intros Hc Hmiss Hq. rewrite (dispatch_run now pk w). simpl.
  rewrite Hc, Hmiss, Hq. simpl. split; [done|].
  intros d' later. split; intros Hlater.
  - rewrite dispatch_run. simpl. rewrite lookup_insert_eq. simpl.
    assert ((later <=? now + 60 * 5) = true) as -> by (apply Z.leb_le; lia).
    done.
  - rewrite dispatch_run. simpl. rewrite lookup_insert_eq. simpl.
    assert ((later <=? now + 60 * 5) = false) as -> by (apply Z.leb_gt; lia).
    unfold detail. by destruct (queryset d' !! pk).
Qed.

Lemma cached_page_lives_300_seconds_witness :
  dispatch 300 1 {| db := db example_world_stale;
                    cache := cache (dispatch 0 1 example_world).2 |}
  = (Return (detail example_db 1),
     {| db := db example_world_stale;
        cache := cache (dispatch 0 1 example_world).2 |}).
Proof.
  destruct (cached_page_lives_300_seconds 0 1 example_world
              {| id := 1; session := mkSession 1 1 0; dome := example_dome;
                 tickets_available := 100 |})
    as [_ Hlater]; [vm_compute; reflexivity..|].
  apply (Hlater (db example_world_stale) 300). lia.
Defined.

(** X10. A 404 is never cached: a GET of a session that does not exist,
    finding no live page, answers 404 and leaves the world as it was,
    so that the first GET after the session has been created answers
    with it. *)
Theorem missing_session_is_not_cached
    (now pk : Z) (w : World) :
  connected (cache w) = true →
  (e ← entries (cache w) !! page_key "show_session_view" (show_session_url pk);
   if now <=? expires_at e then Some (value e) else None) = None →
  queryset (db w) !! pk = None →
  dispatch now pk w = (Return HTTP_404_NOT_FOUND, w) ∧
  ∀ (d' : Database) (later : Z) (a : AnnotatedShowSession),
    now <= later → queryset d' !! pk = Some a →
    (dispatch later pk {| db := d'; cache := cache w |}).1
      = Return (HTTP_200_OK (ShowSessionDetail a)).
Proof.
  intros Hc Hmiss Hq. split.
  - rewrite dispatch_run. simpl. by rewrite Hc, Hmiss, Hq.
  - intros d' later a Hlater Ha. rewrite dispatch_run. simpl. rewrite Hc.
    assert ((e ← entries (cache w)
                   !! page_key "show_session_view" (show_session_url pk);
             if later <=? expires_at e then Some (value e) else None) = None)
      as ->.
    { destruct (entries (cache w) !! _) as [e|]; [|done]. simpl in *.
      destruct (now <=? expires_at e) eqn:Hlt; [done|].
      apply Z.leb_gt in Hlt.
      assert ((later <=? expires_at e) = false) as ->
        by (apply Z.leb_gt; lia).
      done. }
    by rewrite Ha.
Qed.

Lemma missing_session_is_not_cached_witness :
  dispatch 0 2 example_world = (Return HTTP_404_NOT_FOUND, example_world).
Proof.
  apply (missing_session_is_not_cached 0 2 example_world);
    vm_compute; reflexivity.
Defined.

Lemma dispatch_repeat_coherent_witness :
  (dispatch 301 1 (dispatch 100 1 (dispatch 0 1 example_world).2).2).1
    = (dispatch 100 1 (dispatch 0 1 example_world).2).1.
Proof.
  apply (dispatch_repeat_coherent 100 301 1 (dispatch 0 1 example_world).2).
  intros e He. vm_compute in He. injection He as <-.
  vm_compute. reflexivity.
Defined.
